(** * Denormalisation of conference definitions: a shallow embedding

    The functions of [scheduler/denormalise.py] ([types_and_slots],
    [types_and_events], [unavailability], [clashes], [unsuitability]) are
    embedded as Rocq functions, together with the parts of Python they rest
    on: the [datetime] arithmetic and the [strftime] / [strptime] pair for the
    pattern [%d-%b-%Y %H:%M], insertion-ordered dictionaries, and
    [list.index].

    Exceptions are modelled by [option]: [None] stands for a raised
    exception ([ValueError], [OverflowError]). *)

From Stdlib Require Import ZArith Lia Ascii String.
From stdpp Require Import base option list strings.

Local Open Scope Z_scope.

(** ** Python's [datetime] module *)

Module PyDatetime.

Record date := Date { year : Z; month : Z; day : Z }.

Record datetime := Datetime {
  dt_date : date;
  hour : Z;
  minute : Z;
  second : Z;
  microsecond : Z
}.

#[global] Instance date_eq_dec : EqDecision date.
Proof. solve_decision. Defined.

#[global] Instance datetime_eq_dec : EqDecision datetime.
Proof. solve_decision. Defined.

Definition MINYEAR : Z := 1.
Definition MAXYEAR : Z := 9999.
(** [date(9999, 12, 31).toordinal()] *)
Definition MAXORDINAL : Z := 3652059.

(** [_DAYS_IN_MONTH] and [_DAYS_BEFORE_MONTH], both with a placeholder at
    position 0 so that they are indexed by the month number. *)
Definition DAYS_IN_MONTH : list Z :=
  [-1; 31; 28; 31; 30; 31; 30; 31; 31; 30; 31; 30; 31].
Definition DAYS_BEFORE_MONTH : list Z :=
  [-1; 0; 31; 59; 90; 120; 151; 181; 212; 243; 273; 304; 334].

Definition tbl (t : list Z) (i : Z) : Z := nth (Z.to_nat i) t (-1).

Definition b2z (b : bool) : Z := if b then 1 else 0.

(** [year % 4 == 0 and (year % 100 != 0 or year % 400 == 0)] *)
Definition is_leap (y : Z) : bool :=
  (y mod 4 =? 0) && (negb (y mod 100 =? 0) || (y mod 400 =? 0)).

Definition days_before_year (y : Z) : Z :=
  let y' := y - 1 in y' * 365 + y' / 4 - y' / 100 + y' / 400.

Definition days_in_month (y m : Z) : Z :=
  if (m =? 2) && is_leap y then 29 else tbl DAYS_IN_MONTH m.

Definition days_before_month (y m : Z) : Z :=
  tbl DAYS_BEFORE_MONTH m + b2z ((2 <? m) && is_leap y).

Definition ymd2ord (y m d : Z) : Z :=
  days_before_year y + days_before_month y m + d.

Definition toordinal (d : date) : Z := ymd2ord (year d) (month d) (day d).

Definition DI400Y : Z := 146097.
Definition DI100Y : Z := 36524.
Definition DI4Y : Z := 1461.

(** [_ord2ymd]: the 400-, 100-, 4- and 1-year cycles are peeled off in
    turn; the last day of a 4- or 400-year cycle is the one case in which
    the quotient overshoots. *)
Definition ord2ymd (n : Z) : date :=
  let n := n - 1 in
  let n400 := n / DI400Y in
  let n := n mod DI400Y in
  let y := n400 * 400 + 1 in
  let n100 := n / DI100Y in
  let n := n mod DI100Y in
  let n4 := n / DI4Y in
  let n := n mod DI4Y in
  let n1 := n / 365 in
  let n := n mod 365 in
  let y := y + n100 * 100 + n4 * 4 + n1 in
  if (n1 =? 4) || (n100 =? 4) then Date (y - 1) 12 31
  else
    let leapyear := (n1 =? 3) && (negb (n4 =? 24) || (n100 =? 3)) in
    let m := Z.shiftr (n + 50) 5 in
    let preceding := tbl DAYS_BEFORE_MONTH m + b2z ((2 <? m) && leapyear) in
    if n <? preceding then
      let m := m - 1 in
      let preceding :=
        preceding - (tbl DAYS_IN_MONTH m + b2z ((m =? 2) && leapyear)) in
      Date y m (n - preceding + 1)
    else Date y m (n - preceding + 1).

Definition fromordinal (n : Z) : date := ord2ymd n.

(** The last steps of [_ord2ymd] on their own: month and day of the
    [n]-th day (counted from 0) of year [y].  Used to state the cycle
    lemma for [ord2ymd]. *)
Definition month_day (leapyear : bool) (y n : Z) : date :=
  let m := Z.shiftr (n + 50) 5 in
  let preceding := tbl DAYS_BEFORE_MONTH m + b2z ((2 <? m) && leapyear) in
  if n <? preceding then
    let m := m - 1 in
    let preceding :=
      preceding - (tbl DAYS_IN_MONTH m + b2z ((m =? 2) && leapyear)) in
    Date y m (n - preceding + 1)
  else Date y m (n - preceding + 1).

(** Exhaustive check of [month_day] against the month tables, for one
    kind of year. *)
Definition month_day_check (leap : bool) : bool :=
  forallb (fun m =>
    forallb (fun d =>
      bool_decide
        (month_day leap 0
           (tbl DAYS_BEFORE_MONTH m + b2z ((2 <? m) && leap) + d - 1)
         = Date 0 m d))
      (seqZ 1 (tbl DAYS_IN_MONTH m + b2z ((m =? 2) && leap))))
    (seqZ 1 12).

(** Exhaustive check that [month_day] gives a month and a day of that
    month, for every day of one kind of year. *)
Definition month_day_range_check (leap : bool) : bool :=
  forallb (fun n =>
    let d := month_day leap 0 n in
    (1 <=? month d) && (month d <=? 12) && (1 <=? day d) &&
    (day d <=? tbl DAYS_IN_MONTH (month d) + b2z ((month d =? 2) && leap)))
    (seqZ 0 365).

(** What the constructor of [date] checks. *)
Definition valid_date (d : date) : Prop :=
  MINYEAR <= year d <= MAXYEAR /\ 1 <= month d <= 12 /\
  1 <= day d <= days_in_month (year d) (month d).

Definition valid_dateb (d : date) : bool :=
  (MINYEAR <=? year d) && (year d <=? MAXYEAR) &&
  (1 <=? month d) && (month d <=? 12) &&
  (1 <=? day d) && (day d <=? days_in_month (year d) (month d)).

Definition valid_datetime (t : datetime) : Prop :=
  valid_date (dt_date t) /\ 0 <= hour t < 24 /\ 0 <= minute t < 60 /\
  0 <= second t < 60 /\ 0 <= microsecond t < 1000000.

(** [datetime.combine(day, datetime.min.time())] *)
Definition combine_midnight (d : date) : datetime := Datetime d 0 0 0 0.

(** [dt + timedelta(seconds=s)] for an integer [s].  The sum is formed on
    the ordinal of the date and the seconds of the day; a result before
    year 1 or after year 9999 raises [OverflowError] (an [s] too large for
    [timedelta] itself raises the same error, and is out of this range
    too). *)
Definition add_seconds (t : datetime) (s : Z) : option datetime :=
  let total := hour t * 3600 + minute t * 60 + second t + s in
  let days := toordinal (dt_date t) + total / 86400 in
  let secs := total mod 86400 in
  if (0 <? days) && (days <=? MAXORDINAL) then
    Some (Datetime (fromordinal days)
                   (secs / 3600) ((secs mod 3600) / 60) ((secs mod 3600) mod 60)
                   (microsecond t))
  else None.

(** Comparison of naive datetimes: lexicographic on
    (year, month, day, hour, minute, second, microsecond). *)
Definition cmp_then (c1 c2 : comparison) : comparison :=
  match c1 with Eq => c2 | _ => c1 end.

Definition compare (a b : datetime) : comparison :=
  cmp_then (year (dt_date a) ?= year (dt_date b))
 (cmp_then (month (dt_date a) ?= month (dt_date b))
 (cmp_then (day (dt_date a) ?= day (dt_date b))
 (cmp_then (hour a ?= hour b)
 (cmp_then (minute a ?= minute b)
 (cmp_then (second a ?= second b)
           (microsecond a ?= microsecond b)))))).

(** [a <= b] *)
Definition le (a b : datetime) : bool :=
  match compare a b with Gt => false | _ => true end.

(** [a >= b] *)
Definition ge (a b : datetime) : bool := le b a.

(** The datetime with seconds and microseconds dropped. *)
Definition truncate_minute (t : datetime) : datetime :=
  Datetime (dt_date t) (hour t) (minute t) 0 0.

End PyDatetime.

(** ** Python lists and dictionaries *)

(** [l.index(x)]: the first position holding a value equal to [x];
    [ValueError] when there is none. *)
Fixpoint index {A} `{EqDecision A} (x : A) (l : list A) : option nat :=
  match l with
  | [] => None
  | y :: l' => if decide (y = x) then Some 0%nat else S <$> index x l'
  end.

(** The position [index] reports, for a value that occurs in the list. *)
Definition position {A} `{EqDecision A} (x : A) (l : list A) : nat :=
  default 0%nat (index x l).

(** [enumerate(l)] *)
Definition enumerate {A} (l : list A) : list (nat * A) :=
  imap (fun i x => (i, x)) l.

(** A [dict] keeps its items in insertion order; assigning to a key that
    is present replaces the value where it stands. *)
Module PyDict.
Section dict.
Context {K V : Type} `{EqDecision K}.

Definition t := list (K * V).

Fixpoint get (k : K) (d : list (K * V)) : option V :=
  match d with
  | [] => None
  | (k', v) :: d' => if decide (k' = k) then Some v else get k d'
  end.

(** [k in d] *)
Definition mem (k : K) (d : list (K * V)) : bool :=
  match get k d with Some _ => true | None => false end.

(** [d[k] = v] *)
Fixpoint assign (k : K) (v : V) (d : list (K * V)) : list (K * V) :=
  match d with
  | [] => [(k, v)]
  | (k', v') :: d' =>
      if decide (k' = k) then (k', v) :: d' else (k', v') :: assign k v d'
  end.

(** [{k: v for ...}], from the pairs in the order the comprehension
    produces them. *)
Definition of_items (l : list (K * V)) : list (K * V) :=
  foldl (fun d kv => assign kv.1 kv.2 d) [] l.

Definition keys (d : list (K * V)) : list K := d.*1.

(** the invariant of a dictionary: no key twice *)
Definition wf (d : list (K * V)) : Prop := NoDup (keys d).
End dict.
Arguments t : clear implicits.
End PyDict.

(** ** [strftime] and [strptime] for the pattern [%d-%b-%Y %H:%M]

    Strings are ASCII; month names are those of the C locale.  The two
    directions are not symmetric on the year: [strftime] hands [%Y] to the
    C library, which writes the number as it is, and [strptime] reads
    exactly four digits. *)

Module PyFormat.
Import PyDatetime.

Definition digit_char (k : Z) : ascii := ascii_of_N (Z.to_N (48 + k)).

Definition char_digit (c : ascii) : option Z :=
  let n := Z.of_N (N_of_ascii c) in
  if (48 <=? n) && (n <=? 57) then Some (n - 48) else None.

(** [%02d] and [%04d] of a number within the field's range *)
Definition pad2 (n : Z) : string :=
  String (digit_char (n / 10)) (String (digit_char (n mod 10)) "").

Definition pad4 (n : Z) : string :=
  String (digit_char (n / 1000))
    (String (digit_char ((n / 100) mod 10)) (pad2 (n mod 100))).

Definition MONTH_ABBR : list string :=
  ["Jan"; "Feb"; "Mar"; "Apr"; "May"; "Jun";
   "Jul"; "Aug"; "Sep"; "Oct"; "Nov"; "Dec"].

Definition month_abbr (m : Z) : string :=
  nth (Z.to_nat (m - 1)) MONTH_ABBR "".

(** [%Y] of a year from 1 to 9999, as the C library writes it for
    CPython 3.11 on glibc: the year in decimal with no padding, so with
    fewer than four digits before the year 1000. *)
Definition year_digits (n : Z) : string :=
  if n <? 10 then String (digit_char n) ""
  else if n <? 100 then pad2 n
  else if n <? 1000 then String (digit_char (n / 100)) (pad2 (n mod 100))
  else pad4 n.

(** [t.strftime('%d-%b-%Y %H:%M')]: day, hour and minute are padded to
    two digits, the year is not padded. *)
Definition strftime (t : datetime) : string :=
  pad2 (day (dt_date t)) +:+ "-" +:+ month_abbr (month (dt_date t)) +:+ "-"
  +:+ year_digits (year (dt_date t)) +:+ " " +:+ pad2 (hour t) +:+ ":"
  +:+ pad2 (minute t).

(** [str(d)] of a date, which is what [f'{day}'] inserts *)
Definition isoformat (d : date) : string :=
  pad4 (year d) +:+ "-" +:+ pad2 (month d) +:+ "-" +:+ pad2 (day d).

(** [\s] *)
Definition is_space (c : ascii) : bool :=
  let n := Z.of_N (N_of_ascii c) in
  ((9 <=? n) && (n <=? 13)) || ((28 <=? n) && (n <=? 32)).

Definition lower (c : ascii) : ascii :=
  let n := N_of_ascii c in
  if ((65 <=? n) && (n <=? 90))%N then ascii_of_N (n + 32) else c.

(** The pieces of the regular expression that [strptime] compiles the
    pattern to.  Each piece returns the value read and the rest of the
    string.  A field of one or two digits is always followed by a
    character that is no digit (or by the end), so trying the two-digit
    alternatives first and the one-digit one next is what the
    backtracking matcher settles on. *)
Definition lit (c : ascii) (s : string) : option string :=
  match s with
  | String c' r => if decide (c' = c) then Some r else None
  | EmptyString => None
  end.

Definition two_digits (hi lo : Z) (s : string) : option (Z * string) :=
  match s with
  | String c1 (String c2 r) =>
      d1 ← char_digit c1; d2 ← char_digit c2;
      let v := 10 * d1 + d2 in
      if (lo <=? v) && (v <=? hi) then Some (v, r) else None
  | _ => None
  end.

Definition one_digit (lo : Z) (s : string) : option (Z * string) :=
  match s with
  | String c r => d ← char_digit c; if lo <=? d then Some (d, r) else None
  | EmptyString => None
  end.

Definition orelse {A} (p q : string -> option A) (s : string) : option A :=
  match p s with Some x => Some x | None => q s end.

(** [%d]: [3[0-1]|[1-2]\d|0[1-9]|[1-9]| [1-9]] *)
Definition re_d : string -> option (Z * string) :=
  orelse (two_digits 31 1)
    (orelse (one_digit 1) (fun s => lit " " s ≫= one_digit 1)).

(** [%H]: [2[0-3]|[0-1]\d|\d] *)
Definition re_H : string -> option (Z * string) :=
  orelse (two_digits 23 0) (one_digit 0).

(** [%M]: [[0-5]\d|\d] *)
Definition re_M : string -> option (Z * string) :=
  orelse (two_digits 59 0) (one_digit 0).

(** [%Y]: [\d\d\d\d] *)
Definition re_Y (s : string) : option (Z * string) :=
  '(hi, s) ← two_digits 99 0 s; '(lo, s) ← two_digits 99 0 s;
  Some (100 * hi + lo, s).

(** [%b]: one of the month names, letter case ignored *)
Definition re_b (s : string) : option (Z * string) :=
  match s with
  | String c1 (String c2 (String c3 r)) =>
      let w := String (lower c1) (String (lower c2) (String (lower c3) "")) in
      i ← index w ["jan"; "feb"; "mar"; "apr"; "may"; "jun";
                   "jul"; "aug"; "sep"; "oct"; "nov"; "dec"]%string;
      Some (Z.of_nat i + 1, r)
  | _ => None
  end.

Fixpoint skip_spaces (s : string) : string :=
  match s with
  | String c r => if is_space c then skip_spaces r else s
  | EmptyString => s
  end.

(** the blank of the pattern: [\s+] *)
Definition re_spaces (s : string) : option string :=
  match s with
  | String c r => if is_space c then Some (skip_spaces r) else None
  | EmptyString => None
  end.

(** [datetime.strptime(s, '%d-%b-%Y %H:%M')]: the whole string has to
    match, and the date has to exist. *)
Definition strptime (s : string) : option datetime :=
  '(d, s) ← re_d s; s ← lit "-" s;
  '(m, s) ← re_b s; s ← lit "-" s;
  '(y, s) ← re_Y s; s ← re_spaces s;
  '(H, s) ← re_H s; s ← lit ":" s;
  '(M, s) ← re_M s;
  match s with
  | EmptyString =>
      if valid_dateb (Date y m d) then Some (Datetime (Date y m d) H M 0 0)
      else None
  | _ => None
  end.

End PyFormat.


(** ** The records of [conference_scheduler.resources] *)

(** Modelled from the spec: the class [Slot] is declared in the package
    [conference_scheduler], of which the sources hold the import only.  A
    slot record has a venue, a formatted start, a duration, a session label
    and a capacity, which are the keyword arguments of the call in
    [types_and_slots]; two structurally identical slots are equal records. *)
Module Slot.
Record t := Make {
  venue : string;
  starts_at : string;
  duration : Z;
  session : string;
  capacity : Z
}.
#[global] Instance eq_dec : EqDecision t.
Proof. solve_decision. Defined.
End Slot.

(** Modelled from the spec: the class [Event] is declared in the same
    package.  The record holds the arguments of the call in
    [types_and_events]: a title, a duration, the demand and the tags. *)
Module Event.
Record t := Make {
  name : string;
  duration : Z;
  demand : option Z;
  tags : list string
}.
#[global] Instance eq_dec : EqDecision t.
Proof. solve_decision. Defined.
End Event.

(** ** The definitions read from the input files *)

(** One slot of a session: [{'event_type', 'starts_at', 'duration',
    'capacity'}], [starts_at] in seconds after midnight. *)
Module SlotDef.
Record t := Make {
  event_type : string;
  starts_at : Z;
  duration : Z;
  capacity : Z
}.
#[global] Instance eq_dec : EqDecision t.
Proof. solve_decision. Defined.
End SlotDef.

(** One event: [{'title', 'duration', 'tags', 'person', 'event_type'}].
    Two such dictionaries are equal when all their values are. *)
Module EventDef.
Record t := Make {
  title : string;
  duration : Z;
  tags : list string;
  person : string;
  event_type : string
}.
#[global] Instance eq_dec : EqDecision t.
Proof. solve_decision. Defined.
End EventDef.

(** [{'unavailable_from': datetime, 'unavailable_until': datetime}] *)
Module Period.
Record t := Make {
  unavailable_from : PyDatetime.datetime;
  unavailable_until : PyDatetime.datetime
}.
End Period.

(** [{'event_type': ..., 'slot': Slot(...)}] and
    [{'event_type': ..., 'event': Event(...)}] *)
Module TypedSlot.
Record t := Make { event_type : string; slot : Slot.t }.
End TypedSlot.

Module TypedEvent.
Record t := Make { event_type : string; event : Event.t }.
#[global] Instance eq_dec : EqDecision t.
Proof. solve_decision. Defined.
End TypedEvent.

(** ** [scheduler/denormalise.py] *)

Module Denormalise.
Import PyDatetime PyFormat.

(** venue -> day -> session -> slots *)
Definition venues_t : Type :=
  PyDict.t string (PyDict.t date (PyDict.t string (list SlotDef.t))).

(** The four nested [for] clauses of [types_and_slots]. *)
Definition slot_iteration (venues : venues_t)
  : list (string * date * string * SlotDef.t) :=
  '(venue, days) ← venues;
  '(day, sessions) ← days;
  '(session, slots) ← sessions;
  slot ← slots;
  [(venue, day, session, slot)].

(** The element of the comprehension of [types_and_slots]. *)
Definition typed_slot (it : string * date * string * SlotDef.t)
  : option TypedSlot.t :=
  let '(venue, day, session, slot) := it in
  t ← add_seconds (combine_midnight day) (SlotDef.starts_at slot);
  Some (TypedSlot.Make (SlotDef.event_type slot)
          (Slot.Make venue (strftime t) (SlotDef.duration slot)
             (isoformat day +:+ " " +:+ session) (SlotDef.capacity slot))).

Definition types_and_slots (venues : venues_t) : option (list TypedSlot.t) :=
  mapM typed_slot (slot_iteration venues).

Definition types_and_events (events_definition : list EventDef.t)
  : list TypedEvent.t :=
  (fun event =>
     TypedEvent.Make (EventDef.event_type event)
       (Event.Make (EventDef.title event) (EventDef.duration event) None
          (EventDef.tags event)))
  <$> events_definition.

Definition to_datetime (datetime_as_string : string) : option datetime :=
  strptime datetime_as_string.

(** The condition of the inner comprehension of [unavailability]: the
    period starts no later than the slot and ends no earlier than the
    slot does.  [and] does not evaluate its right operand when the left
    one is false. *)
Definition slot_in_period (period : Period.t) (slot : Slot.t) : option bool :=
  start ← to_datetime (Slot.starts_at slot);
  if le (Period.unavailable_from period) start then
    start' ← to_datetime (Slot.starts_at slot);
    finish ← add_seconds start' (Slot.duration slot * 60);
    Some (ge (Period.unavailable_until period) finish)
  else Some false.

(** The list built for one event: [slots.index(slot)] for each period and
    each slot within it. *)
Definition unavailable_slots (periods : list Period.t) (slots : list Slot.t)
  : option (list nat) :=
  mjoin <$>
    mapM (fun period =>
            mjoin <$>
              mapM (fun slot =>
                      b ← slot_in_period period slot;
                      if b : bool then i ← index slot slots; Some [i]
                      else Some [])
                   slots)
         periods.

Definition unavailability (events_definition : list EventDef.t)
    (slots : list Slot.t)
    (unavailability_definition : PyDict.t string (list Period.t))
  : option (PyDict.t nat (list nat)) :=
  items ←
    mapM (fun '(person, periods) =>
            mapM (fun event =>
                    k ← index event events_definition;
                    v ← unavailable_slots periods slots;
                    Some (k, v))
                 (filter (fun event => EventDef.person event = person)
                         events_definition))
         unavailability_definition;
  Some (PyDict.of_items (mjoin items)).

(** *** [clashes]

    [clashes] changes its second argument: it adds keys to the
    dictionary and appends to the lists that are its values.  The
    dictionary maps a person to the location of a list object; the list
    objects live in a store, so that two keys may share one list. *)
Abbreviation loc := nat (only parsing).

Record store := Store {
  mapping : PyDict.t string loc;
  lists : list (list string)
}.

(** Every value of the dictionary is a list object of the store. *)
Definition store_wf (s : store) : Prop :=
  PyDict.wf (mapping s) /\
  Forall (fun kv => (kv.2 < length (lists s))%nat) (mapping s).

(** First loop: a person without an entry gets a new list holding only
    that person. *)
Fixpoint add_missing (persons : list string) (s : store) : store :=
  match persons with
  | [] => s
  | person :: rest =>
      if PyDict.mem person (mapping s) then add_missing rest s
      else
        add_missing rest
          (Store (PyDict.assign person (length (lists s)) (mapping s))
                 (lists s ++ [[person]]))
  end.

(** Second loop, over the items of the dictionary: the person is
    appended where missing, and counted. *)
Fixpoint add_self (items : list (string * loc)) (h : list (list string))
    (count : nat) : option (list (list string) * nat) :=
  match items with
  | [] => Some (h, count)
  | (person, l) :: rest =>
      clashing_people ← h !! l;
      if bool_decide (person ∈ clashing_people) then add_self rest h count
      else add_self rest (<[l := clashing_people ++ [person]]> h) (count + 1)%nat
  end.

(** The value of the final comprehension for one event. *)
Definition clashing_events (events_definition : list EventDef.t)
    (clashing_people : list string) (event : EventDef.t)
  : option (list nat) :=
  mjoin <$>
    mapM (fun c =>
            mjoin <$>
              mapM (fun t =>
                      if decide (EventDef.person t = c) then
                        i ← index event events_definition;
                        j ← index t events_definition;
                        Some (if decide (i ≠ j) then [j] else [])
                      else Some [])
                   events_definition)
         clashing_people.

(** The result is the returned pair and the store as the call leaves
    it. *)
Definition clashes (events_definition : list EventDef.t) (s : store)
  : option (PyDict.t nat (list nat) * nat * store) :=
  let s1 := add_missing (EventDef.person <$> events_definition) s in
  '(h, count) ← add_self (mapping s1) (lists s1) 0%nat;
  items ←
    mapM (fun '(person, l) =>
            clashing_people ← h !! l;
            mapM (fun event =>
                    k ← index event events_definition;
                    v ← clashing_events events_definition clashing_people
                           event;
                    Some (k, v))
                 (filter (fun event => EventDef.person event = person)
                         events_definition))
         (mapping s1);
  Some (PyDict.of_items (mjoin items), count, Store (mapping s1) h).

(** *** [unsuitability] *)

(** The list comprehension of the loop body. *)
Definition unsuitable_slots (types_and_slots : list TypedSlot.t)
    (event : EventDef.t) : list nat :=
  (filter (fun id => TypedSlot.event_type id.2 ≠ EventDef.event_type event)
          (enumerate types_and_slots)).*1.

(** The loop over [rest], the events still to visit. *)
Fixpoint unsuitability_loop (types_and_slots : list TypedSlot.t)
    (events_definition rest : list EventDef.t)
    (output : PyDict.t nat (list nat)) : option (PyDict.t nat (list nat)) :=
  match rest with
  | [] => Some output
  | event :: rest' =>
      i ← index event events_definition;
      unsuitability_loop types_and_slots events_definition rest'
        (PyDict.assign i (unsuitable_slots types_and_slots event) output)
  end.

Definition unsuitability (types_and_slots : list TypedSlot.t)
    (events_definition : list EventDef.t)
  : option (PyDict.t nat (list nat)) :=
  unsuitability_loop types_and_slots events_definition events_definition [].

End Denormalise.


(** ** The output of the builders, field by field

    These definitions state what each builder emits for one item of its
    input, in the words of the specification where the code agrees with
    it; the theorems below compare them with the code. *)

Module Described.
Import PyDatetime PyFormat.

(** [DD-Mon-YYYY HH:MM] for a day and an offset in seconds within it. *)
Definition timestamp (d : date) (offset : Z) : string :=
  pad2 (day d) +:+ "-" +:+ month_abbr (month d) +:+ "-" +:+ pad4 (year d)
  +:+ " " +:+ pad2 (offset / 3600) +:+ ":" +:+ pad2 ((offset mod 3600) / 60).

(** ["{day} {session-name}"] *)
Definition session_label (d : date) (session : string) : string :=
  isoformat d +:+ " " +:+ session.

(** The pair emitted for one slot specification of a session. *)
Definition slot_pair (it : string * date * string * SlotDef.t)
  : TypedSlot.t :=
  let '(venue, d, session, slot) := it in
  TypedSlot.Make (SlotDef.event_type slot)
    (Slot.Make venue (timestamp d (SlotDef.starts_at slot))
       (SlotDef.duration slot) (session_label d session)
       (SlotDef.capacity slot)).

(** A day as the input files give it, with an offset inside the day. *)
Definition within_day (it : string * date * string * SlotDef.t) : Prop :=
  let '(_, d, _, slot) := it in
  valid_date d /\ 0 <= SlotDef.starts_at slot < 86400.

(** The pair emitted for one event specification: the tag beside an
    [Event] of title, duration and tags, with no demand. *)
Definition event_pair (event : EventDef.t) : TypedEvent.t :=
  TypedEvent.Make (EventDef.event_type event)
    (Event.Make (EventDef.title event) (EventDef.duration event) None
       (EventDef.tags event)).

Definition with_person (p : string) (event : EventDef.t) : EventDef.t :=
  EventDef.Make (EventDef.title event) (EventDef.duration event)
    (EventDef.tags event) p (EventDef.event_type event).
End Described.

(** ** [clashes] with the positions written out

    The same comprehensions as in [Denormalise.clashes], on total
    functions: [position] for [index], and the empty list for a list
    object that the store does not hold.  The lemmas on [clashes] show
    that it returns these values. *)

Module ClashesPure.
Import Denormalise.

(** The persons that the first loop adds, in the order it adds them:
    those of [persons] that are not [known], once each. *)
Fixpoint missing (persons known : list string) : list string :=
  match persons with
  | [] => []
  | p :: rest =>
      if bool_decide (p ∈ known) then missing rest known
      else p :: missing rest (known ++ [p])
  end.

(** The entries the first loop appends: each new person with the
    location of a new list. *)
Definition fresh_entries (len : nat) (added : list string)
  : list (string * loc) :=
  imap (fun i p => (p, (len + i)%nat)) added.

Definition clash_list (evs : list EventDef.t) (people : list string)
    (event : EventDef.t) : list nat :=
  mjoin ((fun c =>
            mjoin ((fun t =>
                      if decide (EventDef.person t = c) then
                        if decide (position event evs ≠ position t evs)
                        then [position t evs] else []
                      else []) <$> evs)) <$> people).

Definition clash_items (evs : list EventDef.t)
    (mapping : list (string * loc)) (h : list (list string))
  : list (nat * list nat) :=
  mjoin ((fun kv : string * loc =>
            (fun event =>
               (position event evs,
                clash_list evs (default [] (h !! kv.2)) event))
            <$> filter (fun event => EventDef.person event = kv.1) evs)
         <$> mapping).

(** The entries of the dictionary that lack their own key, as the
    second loop finds them. *)
Definition lacking (mapping : list (string * loc)) (h : list (list string))
  : list (string * loc) :=
  filter (fun kv => kv.1 ∉ default [] (h !! kv.2)) mapping.

(** The relation is complete: every owner of an event has an entry, and
    every entry lists its own key. *)
Definition normalized (evs : list EventDef.t) (s : store) : Prop :=
  (forall event, event ∈ evs ->
     EventDef.person event ∈ PyDict.keys (mapping s)) /\
  Forall (fun kv => exists people,
            lists s !! kv.2 = Some people /\ kv.1 ∈ people) (mapping s).
End ClashesPure.


(** ** Conditions on the input *)

Module Conditions.
Import PyDatetime Denormalise.

(** Midnight of the day plus the offset falls on a day from 0001-01-01
    to 9999-12-31: the sum that [types_and_slots] forms does not raise
    [OverflowError]. *)
Definition in_calendar (it : string * date * string * SlotDef.t) : Prop :=
  let '(_, d, _, slot) := it in
  0 < toordinal d + SlotDef.starts_at slot / 86400 <= MAXORDINAL.

(** One evaluation of the condition of [unavailability] raises: the
    start of the slot does not parse, or the period starts no later than
    the slot and the end of the slot is off the calendar. *)
Definition slot_raises (period : Period.t) (slot : Slot.t) : Prop :=
  to_datetime (Slot.starts_at slot) = None \/
  exists start,
    to_datetime (Slot.starts_at slot) = Some start /\
    le (Period.unavailable_from period) start = true /\
    add_seconds start (Slot.duration slot * 60) = None.

(** The day is in a year that is written with four digits. *)
Definition four_digit_year (it : string * date * string * SlotDef.t)
  : Prop :=
  let '(_, d, _, _) := it in 1000 <= year d.

(** The start of the slot parses, and the end of the slot is on the
    calendar: no evaluation of the condition of [unavailability] raises
    on this slot. *)
Definition well_timed (slot : Slot.t) : Prop :=
  exists start,
    to_datetime (Slot.starts_at slot) = Some start /\
    is_Some (add_seconds start (Slot.duration slot * 60)).
End Conditions.

(** ** A symmetric clash relation *)

Module Relations.
Import Denormalise.

(** Between any two persons with an entry, one is in the list of the
    other exactly when the other is in the list of the one. *)
Definition symmetric (s : store) : Prop :=
  forall p q lp lq people_p people_q,
    PyDict.get p (mapping s) = Some lp -> lists s !! lp = Some people_p ->
    PyDict.get q (mapping s) = Some lq -> lists s !! lq = Some people_q ->
    (q ∈ people_p <-> p ∈ people_q).
End Relations.


(** ** Sample data *)

Module Samples.
Import PyDatetime Denormalise.

Definition oct26 : date := Date 2017 10 26.

(** One venue, one day, one session, one slot at 09:00. *)
Definition hall_a : venues_t :=
  [("Hall A"%string,
    [(oct26, [("AM"%string, [SlotDef.Make "talk" 32400 30 100])])])].

Definition ev (title person type : string) : EventDef.t :=
  EventDef.Make title 30 [] person type.

Definition keynote_alice : EventDef.t := ev "Keynote" "alice" "talk".
Definition keynote_bob : EventDef.t := ev "Keynote" "bob" "talk".
Definition tutorial_carol : EventDef.t := ev "Tutorial" "carol" "workshop".
Definition panel_dave : EventDef.t := ev "Panel" "dave" "talk".

(** One block of Hall A offered to two event types: the two slot
    specifications differ in the type only. *)
Definition shared_block : venues_t :=
  [("Hall A"%string,
    [(oct26, [("AM"%string, [SlotDef.Make "talk" 32400 30 100;
                             SlotDef.Make "workshop" 32400 30 100])])])].

Definition hall_a_0900 : Slot.t :=
  Slot.Make "Hall A" "26-Oct-2017 09:00" 30 "2017-10-26 AM" 100.

Definition hall_a_0945 : Slot.t :=
  Slot.Make "Hall A" "26-Oct-2017 09:45" 30 "2017-10-26 AM" 100.

(** The period of the docstring of [unavailability]: the whole day. *)
Definition all_day : Period.t :=
  Period.Make (Datetime oct26 0 0 0 0) (Datetime oct26 23 59 0 0).

Definition nine_to_ten : Period.t :=
  Period.Make (Datetime oct26 9 0 0 0) (Datetime oct26 10 0 0 0).

Definition alice_all_day : PyDict.t string (list Period.t) :=
  [("alice"%string, [all_day])].

(** No clash definitions at all. *)
Definition no_clashes : store := Store [] [].

(** [{"bob": ["carol"], "carol": []}]: bob names carol, carol names
    nobody. *)
Definition bob_names_carol : store :=
  Store [("bob"%string, 0%nat); ("carol"%string, 1%nat)]
        [["carol"%string]; []].

(** [{"bob": ["carol"]}] *)
Definition only_bob : store := Store [("bob"%string, 0%nat)] [["carol"%string]].

(** [{"bob": ["carol"], "carol": ["bob"]}]: each names the other. *)
Definition bob_and_carol : store :=
  Store [("bob"%string, 0%nat); ("carol"%string, 1%nat)]
        [["carol"%string]; ["bob"%string]].

Definition lecture_bob : EventDef.t := ev "Lecture" "bob" "talk".

(** Hall A again, on the first day of the year 999. *)
Definition jan1_999 : date := Date 999 1 1.

Definition hall_a_999 : venues_t :=
  [("Hall A"%string,
    [(jan1_999, [("AM"%string, [SlotDef.Make "talk" 32400 30 100])])])].

Definition all_day_999 : Period.t :=
  Period.Make (Datetime jan1_999 0 0 0 0) (Datetime jan1_999 23 59 0 0).


(** The keynote of alice, a tutorial, and the keynote of alice once
    more: the first and the last definition are equal. *)
Definition keynote_twice : list EventDef.t :=
  [keynote_alice; tutorial_carol; keynote_alice].

End Samples.


(* ================================================================== *)
(** * Properties *)

(** ** The calendar *)

Module PyDatetimeFacts.
Import PyDatetime.

Lemma divmod_eq n d q r :
  0 <= r < d -> n = d * q + r -> n / d = q /\ n mod d = r.
Proof.
  intros Hr Hn. split; symmetry.
  - apply (Z.div_unique n d q r); [lia | exact Hn].
  - apply (Z.mod_unique n d q r); [lia | exact Hn].
Qed.

Ltac divmod n d q r :=
  destruct (divmod_eq n d q r) as [-> ->]; [lia | lia |].

Ltac calc_tbl :=
  cbv [tbl DAYS_BEFORE_MONTH DAYS_IN_MONTH nth Z.to_nat Pos.to_nat
       Pos.iter_op Init.Nat.add b2z Z.ltb Z.eqb Z.compare Pos.compare
       Pos.compare_cont Pos.eqb andb] in *.

Lemma month_cases m :
  1 <= m <= 12 ->
  m = 1 \/ m = 2 \/ m = 3 \/ m = 4 \/ m = 5 \/ m = 6 \/
  m = 7 \/ m = 8 \/ m = 9 \/ m = 10 \/ m = 11 \/ m = 12.
Proof. lia. Qed.

Ltac each_month m H :=
  let C := fresh "C" in
  pose proof (month_cases m H) as C;
  repeat (destruct C as [C | C]); subst m.

(** The year before [y] splits into 400-, 100-, 4- and 1-year cycles. *)
Lemma days_before_year_cycles y :
  let y1 := y - 1 in
  days_before_year y =
    146097 * (y1 / 400) + 36524 * ((y1 mod 400) / 100)
    + 1461 * ((y1 mod 100) / 4) + 365 * (y1 mod 4).
Proof.
  intros y1. unfold days_before_year. fold y1.
  Z.div_mod_to_equations. lia.
Qed.

Lemma is_leap_cycles y :
  let y1 := y - 1 in
  is_leap y =
    (y1 mod 4 =? 3) &&
    (negb ((y1 mod 100) / 4 =? 24) || ((y1 mod 400) / 100 =? 3)).
Proof.
  intros y1. unfold is_leap.
  assert (E4 : (y mod 4 =? 0) = (y1 mod 4 =? 3)).
  { subst y1.
    destruct (Z.eqb_spec (y mod 4) 0), (Z.eqb_spec ((y - 1) mod 4) 3);
      try reflexivity; exfalso; Z.div_mod_to_equations; lia. }
  assert (E100 : (y mod 100 =? 0)
                 = (y1 mod 4 =? 3) && ((y1 mod 100) / 4 =? 24)).
  { subst y1.
    destruct (Z.eqb_spec (y mod 100) 0), (Z.eqb_spec ((y - 1) mod 4) 3),
      (Z.eqb_spec ((y - 1) mod 100 / 4) 24);
      try reflexivity; exfalso; Z.div_mod_to_equations; lia. }
  assert (E400 : (y mod 400 =? 0)
                 = (y1 mod 4 =? 3) && ((y1 mod 100) / 4 =? 24)
                   && ((y1 mod 400) / 100 =? 3)).
  { subst y1.
    destruct (Z.eqb_spec (y mod 400) 0), (Z.eqb_spec ((y - 1) mod 4) 3),
      (Z.eqb_spec ((y - 1) mod 100 / 4) 24),
      (Z.eqb_spec ((y - 1) mod 400 / 100) 3);
      try reflexivity; exfalso; Z.div_mod_to_equations; lia. }
  rewrite E4, E100, E400.
  destruct (y1 mod 4 =? 3), (y1 mod 100 / 4 =? 24),
    (y1 mod 400 / 100 =? 3); reflexivity.
Qed.

(** [ord2ymd] on an ordinal given by its cycles: day 365 of a leap year
    is the overshooting case. *)
Lemma ord2ymd_cycles a b c e doy :
  0 <= a -> 0 <= b <= 3 -> 0 <= c <= 24 -> 0 <= e <= 3 -> 0 <= doy <= 365 ->
  let leap := (e =? 3) && (negb (c =? 24) || (b =? 3)) in
  (doy = 365 -> leap = true) ->
  ord2ymd (146097 * a + 36524 * b + 1461 * c + 365 * e + doy + 1) =
    if doy =? 365 then Date (400 * a + 100 * b + 4 * c + e + 1) 12 31
    else month_day leap (400 * a + 100 * b + 4 * c + e + 1) doy.
Proof.
  intros Ha Hb Hc He Hd leap Hleap.
  unfold ord2ymd, DI400Y, DI100Y, DI4Y.
  set (N := 146097 * a + 36524 * b + 1461 * c + 365 * e + doy).
  replace (N + 1 - 1) with N by lia.
  assert (Hlt : 36524 * b + 1461 * c + 365 * e + doy < 146097).
  { destruct (Z.eq_dec doy 365) as [Hd'|]; [|lia].
    specialize (Hleap Hd'). subst leap.
    destruct (Z.eqb_spec e 3), (Z.eqb_spec c 24), (Z.eqb_spec b 3);
      try discriminate; lia. }
  divmod N 146097 a (36524 * b + 1461 * c + 365 * e + doy).
  clearbody N. clear N Hlt.
  destruct (Z.eqb_spec doy 365) as [->|Hne].
  - specialize (Hleap eq_refl). subst leap.
    destruct (Z.eqb_spec e 3) as [->|]; [|discriminate].
    destruct (Z.eqb_spec c 24) as [->|Hc24].
    + destruct (Z.eqb_spec b 3) as [->|]; [|discriminate].
      change (36524 * 3 + 1461 * 24 + 365 * 3 + 365) with (36524 * 4 + 0).
      divmod (36524 * 4 + 0) 36524 4 0.
      rewrite Zmod_0_l, !Zdiv_0_l, orb_true_r. f_equal. lia.
    + divmod (36524 * b + 1461 * c + 365 * 3 + 365) 36524 b
             (1461 * c + 1460).
      divmod (1461 * c + 1460) 1461 c 1460.
      change (1460 / 365) with 4. change (1460 mod 365) with 0.
      cbn [Z.eqb orb]. f_equal. lia.
  - divmod (36524 * b + 1461 * c + 365 * e + doy) 36524 b
           (1461 * c + 365 * e + doy).
    divmod (1461 * c + 365 * e + doy) 1461 c (365 * e + doy).
    divmod (365 * e + doy) 365 e doy.
    replace (e =? 4) with false by (symmetry; apply Z.eqb_neq; lia).
    replace (b =? 4) with false by (symmetry; apply Z.eqb_neq; lia).
    cbn [orb]. fold leap. unfold month_day.
    replace (a * 400 + 1 + b * 100 + c * 4 + e)
      with (400 * a + 100 * b + 4 * c + e + 1) by lia.
    reflexivity.
Qed.

Lemma month_day_check_ok leap : month_day_check leap = true.
Proof. destruct leap; vm_compute; reflexivity. Qed.

Lemma month_day_year leap y n :
  month_day leap y n =
    Date y (month (month_day leap 0 n)) (day (month_day leap 0 n)).
Proof. unfold month_day. cbv zeta. case (_ <? _); reflexivity. Qed.

Lemma month_day_inv leap y m d :
  1 <= m <= 12 -> 1 <= d <= tbl DAYS_IN_MONTH m + b2z ((m =? 2) && leap) ->
  month_day leap y (tbl DAYS_BEFORE_MONTH m + b2z ((2 <? m) && leap) + d - 1)
  = Date y m d.
Proof.
  intros Hm Hd. rewrite month_day_year.
  pose proof (month_day_check_ok leap) as H. unfold month_day_check in H.
  rewrite forallb_forall in H.
  assert (Hin : In m (seqZ 1 12)).
  { apply list_elem_of_In, elem_of_seqZ. lia. }
  specialize (H m Hin). rewrite forallb_forall in H.
  assert (Hin' : In d (seqZ 1 (tbl DAYS_IN_MONTH m + b2z ((m =? 2) && leap)))).
  { apply list_elem_of_In, elem_of_seqZ. lia. }
  specialize (H d Hin'). apply bool_decide_eq_true in H.
  rewrite H. reflexivity.
Qed.

Lemma valid_dateb_spec d : valid_dateb d = true <-> valid_date d.
Proof.
  unfold valid_dateb, valid_date. rewrite !andb_true_iff, !Z.leb_le. tauto.
Qed.

Lemma days_in_month_bounds y m :
  1 <= m <= 12 -> 28 <= days_in_month y m <= 31.
Proof.
  intros Hm. unfold days_in_month.
  each_month m Hm; destruct (is_leap y); calc_tbl; lia.
Qed.

(** The cycles of a valid date, and its day of the year. *)
Lemma toordinal_cycles d :
  valid_date d ->
  exists a b c e doy,
    0 <= a /\ 0 <= b <= 3 /\ 0 <= c <= 24 /\ 0 <= e <= 3 /\
    year d = 400 * a + 100 * b + 4 * c + e + 1 /\
    toordinal d = 146097 * a + 36524 * b + 1461 * c + 365 * e + doy + 1 /\
    let leap := (e =? 3) && (negb (c =? 24) || (b =? 3)) in
    doy = tbl DAYS_BEFORE_MONTH (month d) + b2z ((2 <? month d) && leap)
          + day d - 1 /\
    1 <= day d <= tbl DAYS_IN_MONTH (month d) + b2z ((month d =? 2) && leap) /\
    0 <= doy <= 365 /\
    (doy = 365 -> leap = true /\ month d = 12 /\ day d = 31) /\
    (leap = false -> doy <= 364).
Proof.
  destruct d as [y m d]. unfold valid_date, MINYEAR, MAXYEAR.
  cbn [year month day]. intros (Hy & Hm & Hd).
  unfold toordinal, ymd2ord. cbn [year month day].
  rewrite days_before_year_cycles. cbv zeta.
  unfold days_before_month, days_in_month in *.
  rewrite is_leap_cycles in *. cbv zeta in *.
  set (a := (y - 1) / 400) in *. set (b := ((y - 1) mod 400) / 100) in *.
  set (c := ((y - 1) mod 100) / 4) in *. set (e := (y - 1) mod 4) in *.
  exists a, b, c, e.
  set (leap := (e =? 3) && (negb (c =? 24) || (b =? 3))) in *.
  exists (tbl DAYS_BEFORE_MONTH m + b2z ((2 <? m) && leap) + d - 1).
  assert (Hy' : y = 400 * a + 100 * b + 4 * c + e + 1).
  { subst a b c e. Z.div_mod_to_equations. lia. }
  assert (Ha : 0 <= a) by (subst a; Z.div_mod_to_equations; lia).
  assert (Hb : 0 <= b <= 3) by (subst b; Z.div_mod_to_equations; lia).
  assert (Hc : 0 <= c <= 24) by (subst c; Z.div_mod_to_equations; lia).
  assert (He : 0 <= e <= 3) by (subst e; Z.div_mod_to_equations; lia).
  clearbody a b c e.
  assert (Hdim : 1 <= d <= tbl DAYS_IN_MONTH m + b2z ((m =? 2) && leap)).
  { destruct ((m =? 2) && leap) eqn:E; [|cbn [b2z]; lia].
    apply andb_prop in E as [->%Z.eqb_eq E].
    change (tbl DAYS_IN_MONTH 2 + b2z true) with 29. lia. }
  clear Hd.
  assert (Hdoy :
    let doy := tbl DAYS_BEFORE_MONTH m + b2z ((2 <? m) && leap) + d - 1 in
    0 <= doy <= 365 /\ (doy = 365 -> leap = true /\ m = 12 /\ d = 31) /\
    (leap = false -> doy <= 364)).
  { clearbody leap. cbv zeta.
    each_month m Hm; destruct leap; calc_tbl; lia. }
  cbv zeta in Hdoy. destruct Hdoy as (? & ? & ?).
  cbv zeta. split_and!; try assumption; try reflexivity; lia.
Qed.

(** [date.fromordinal(d.toordinal()) == d] *)
Theorem fromordinal_toordinal d :
  valid_date d -> fromordinal (toordinal d) = d.
Proof.
  intros Hv.
  destruct (toordinal_cycles d Hv)
    as (a & b & c & e & doy & Ha & Hb & Hc & He & Hy & -> & H).
  cbv zeta in H. destruct H as (Hdoy & Hdim & Hr & H365 & _).
  unfold fromordinal.
  rewrite ord2ymd_cycles;
    [| lia | lia | lia | lia | lia | intros E; apply (H365 E)].
  rewrite <- Hy. destruct d as [y m d]; cbn [year month day] in *.
  destruct (Z.eqb_spec doy 365) as [E|E].
  - destruct (H365 E) as (_ & -> & ->). reflexivity.
  - rewrite Hdoy. apply month_day_inv; [apply Hv | assumption].
Qed.

Lemma toordinal_range d :
  valid_date d -> 1 <= toordinal d <= MAXORDINAL.
Proof.
  intros Hv.
  destruct (toordinal_cycles d Hv)
    as (a & b & c & e & doy & Ha & Hb & Hc & He & Hy & -> & H).
  cbv zeta in H. destruct H as (_ & _ & Hr & H365 & Hnl).
  destruct Hv as (Hyr & _). unfold MINYEAR, MAXYEAR, MAXORDINAL in *.
  split; [lia|].
  destruct ((e =? 3) && (negb (c =? 24) || (b =? 3))) eqn:E.
  - apply andb_prop in E as [->%Z.eqb_eq E]. lia.
  - specialize (Hnl eq_refl). lia.
Qed.

Lemma month_day_range_check_ok leap : month_day_range_check leap = true.
Proof. destruct leap; vm_compute; reflexivity. Qed.

Lemma month_day_range leap y n :
  0 <= n < 365 ->
  let d := month_day leap y n in
  year d = y /\ 1 <= month d <= 12 /\
  1 <= day d <= tbl DAYS_IN_MONTH (month d) + b2z ((month d =? 2) && leap).
Proof.
  intros Hn. cbv zeta. rewrite month_day_year. cbn [year month day].
  pose proof (month_day_range_check_ok leap) as H.
  unfold month_day_range_check in H. rewrite forallb_forall in H.
  assert (Hin : In n (seqZ 0 365)).
  { apply list_elem_of_In, elem_of_seqZ. lia. }
  specialize (H n Hin). cbv zeta in H.
  rewrite !andb_true_iff, !Z.leb_le in H. split; [reflexivity | lia].
Qed.

(** Every ordinal of the calendar is the ordinal of a date: a year from
    1 to 9999, a month, and a day of that month. *)
Theorem fromordinal_valid n :
  1 <= n <= MAXORDINAL -> valid_date (fromordinal n).
Proof.
  unfold MAXORDINAL, fromordinal, ord2ymd, DI400Y, DI100Y, DI4Y.
  intros Hn.
  set (n0 := n - 1).
  set (a := n0 / 146097). set (r1 := n0 mod 146097).
  set (b := r1 / 36524). set (r2 := r1 mod 36524).
  set (c := r2 / 1461). set (r3 := r2 mod 1461).
  set (e := r3 / 365). set (r4 := r3 mod 365).
  assert (H1 : n0 = 146097 * a + r1 /\ 0 <= r1 < 146097).
  { subst a r1. split; [apply Z.div_mod | apply Z.mod_pos_bound]; lia. }
  assert (H2 : r1 = 36524 * b + r2 /\ 0 <= r2 < 36524).
  { subst b r2. split; [apply Z.div_mod | apply Z.mod_pos_bound]; lia. }
  assert (H3 : r2 = 1461 * c + r3 /\ 0 <= r3 < 1461).
  { subst c r3. split; [apply Z.div_mod | apply Z.mod_pos_bound]; lia. }
  assert (H4 : r3 = 365 * e + r4 /\ 0 <= r4 < 365).
  { subst e r4. split; [apply Z.div_mod | apply Z.mod_pos_bound]; lia. }
  assert (H0 : 0 <= n0 <= 3652058) by (subst n0; lia).
  clearbody n0 a r1 b r2 c r3 e r4. clear Hn n.
  assert (Ha : 0 <= a <= 24) by lia.
  assert (Hb : 0 <= b <= 4) by lia.
  assert (Hc : 0 <= c <= 24) by lia.
  assert (He : 0 <= e <= 4) by lia.
  destruct ((e =? 4) || (b =? 4)) eqn:Hlast.
  - unfold valid_date, MINYEAR, MAXYEAR. cbn [year month day].
    assert (Hdim : days_in_month (a * 400 + 1 + b * 100 + c * 4 + e - 1) 12
                   = 31) by reflexivity.
    rewrite Hdim. apply orb_true_iff in Hlast.
    destruct Hlast as [->%Z.eqb_eq | ->%Z.eqb_eq]; lia.
  - apply orb_false_iff in Hlast as [He4%Z.eqb_neq Hb4%Z.eqb_neq].
    set (y := a * 400 + 1 + b * 100 + c * 4 + e).
    set (leap := (e =? 3) && (negb (c =? 24) || (b =? 3))).
    fold (month_day leap y r4).
    destruct (month_day_range leap y r4 ltac:(lia)) as (Hy & Hm & Hd).
    assert (Hleap : is_leap y = leap).
    { rewrite is_leap_cycles. cbv zeta. subst leap y.
      replace (a * 400 + 1 + b * 100 + c * 4 + e - 1)
        with (400 * a + (100 * b + (4 * c + e))) by lia.
      destruct (divmod_eq (400 * a + (100 * b + (4 * c + e))) 4
                  (100 * a + 25 * b + c) e) as [_ ->]; [lia | lia |].
      destruct (divmod_eq (400 * a + (100 * b + (4 * c + e))) 100
                  (4 * a + b) (4 * c + e)) as [_ ->]; [lia | lia |].
      destruct (divmod_eq (400 * a + (100 * b + (4 * c + e))) 400
                  a (100 * b + (4 * c + e))) as [_ ->]; [lia | lia |].
      destruct (divmod_eq (4 * c + e) 4 c e) as [-> _]; [lia | lia |].
      destruct (divmod_eq (100 * b + (4 * c + e)) 100 b (4 * c + e))
        as [-> _]; [lia | lia |].
      reflexivity. }
    unfold valid_date, MINYEAR, MAXYEAR. rewrite Hy.
    split; [subst y; lia|]. split; [exact Hm|].
    unfold days_in_month. rewrite Hleap.
    destruct ((month (month_day leap y r4) =? 2) && leap) eqn:E.
    + apply andb_prop in E as [E%Z.eqb_eq _]. rewrite E in Hd.
      change (tbl DAYS_IN_MONTH 2 + b2z true) with 29 in Hd. exact Hd.
    + cbn [b2z] in Hd. lia.
Qed.

(** A sum that [add_seconds] returns is a datetime of the calendar. *)
Lemma add_seconds_valid t s t' :
  0 <= microsecond t < 1000000 ->
  add_seconds t s = Some t' -> valid_datetime t'.
Proof.
  unfold add_seconds. intros Hus.
  set (total := hour t * 3600 + minute t * 60 + second t + s).
  destruct ((0 <? toordinal (dt_date t) + total / 86400) &&
            (toordinal (dt_date t) + total / 86400 <=? MAXORDINAL)) eqn:E;
    [|discriminate].
  apply andb_prop in E as [E1%Z.ltb_lt E2%Z.leb_le].
  intros [= <-]. unfold valid_datetime.
  cbn [dt_date hour minute second microsecond].
  split; [apply fromordinal_valid; lia|].
  pose proof (Z.mod_pos_bound total 86400 ltac:(lia)) as Hsecs.
  set (secs := total mod 86400) in *. clearbody secs.
  split_and!; try lia; Z.div_mod_to_equations; lia.
Qed.

(** Adding an offset that stays within the day leaves the date alone. *)
Lemma add_seconds_midnight d s :
  valid_date d -> 0 <= s < 86400 ->
  add_seconds (combine_midnight d) s =
    Some (Datetime d (s / 3600) ((s mod 3600) / 60) (s mod 60) 0).
Proof.
  intros Hv Hs. unfold add_seconds, combine_midnight.
  cbn [dt_date hour minute second microsecond].
  replace (0 * 3600 + 0 * 60 + 0 + s) with s by lia.
  rewrite (Z.div_small s 86400), (Z.mod_small s 86400), Z.add_0_r by lia.
  pose proof (toordinal_range d Hv) as Hr.
  replace (0 <? toordinal d) with true by (symmetry; apply Z.ltb_lt; lia).
  replace (toordinal d <=? MAXORDINAL) with true
    by (symmetry; apply Z.leb_le; lia).
  cbn [andb]. rewrite fromordinal_toordinal by assumption.
  do 2 f_equal. Z.div_mod_to_equations. lia.
Qed.

Lemma add_seconds_midnight_valid d s :
  valid_date d -> 0 <= s < 86400 ->
  valid_datetime (Datetime d (s / 3600) ((s mod 3600) / 60) (s mod 60) 0).
Proof.
  intros Hv Hs. unfold valid_datetime.
  cbn [dt_date hour minute second microsecond].
  split; [assumption|]. repeat split; Z.div_mod_to_equations; lia.
Qed.

End PyDatetimeFacts.


(** ** Formatting and parsing *)

Module PyFormatFacts.
Import PyDatetime PyFormat PyDatetimeFacts.

Lemma append_cons c (s r : string) : String c s +:+ r = String c (s +:+ r).
Proof. reflexivity. Qed.

Lemma append_nil_l (r : string) : "" +:+ r = r.
Proof. reflexivity. Qed.

Lemma append_nil_r (s : string) : s +:+ "" = s.
Proof.
  induction s as [|c s IH]; [reflexivity|].
  rewrite append_cons, IH. reflexivity.
Qed.

Lemma append_assoc (a b c : string) : (a +:+ b) +:+ c = a +:+ b +:+ c.
Proof.
  induction a as [|x a IH]; [reflexivity|].
  rewrite !append_cons, IH. reflexivity.
Qed.

Lemma digit_cases k :
  0 <= k <= 9 ->
  k = 0 \/ k = 1 \/ k = 2 \/ k = 3 \/ k = 4 \/ k = 5 \/ k = 6 \/
  k = 7 \/ k = 8 \/ k = 9.
Proof. lia. Qed.

Ltac each_digit k H :=
  let C := fresh "C" in
  pose proof (digit_cases k H) as C;
  repeat (destruct C as [C | C]); subst k.

Lemma char_digit_digit_char k :
  0 <= k <= 9 -> char_digit (digit_char k) = Some k.
Proof. intros H. each_digit k H; reflexivity. Qed.

Lemma is_space_digit_char k : 0 <= k <= 9 -> is_space (digit_char k) = false.
Proof. intros H. each_digit k H; reflexivity. Qed.

Lemma pad2_cons n r :
  pad2 n +:+ r = String (digit_char (n / 10)) (String (digit_char (n mod 10)) r).
Proof. reflexivity. Qed.

Lemma two_digits_pad2 hi lo n r :
  0 <= n <= 99 -> lo <= n <= hi ->
  two_digits hi lo (pad2 n +:+ r) = Some (n, r).
Proof.
  intros Hn Hr. rewrite pad2_cons. unfold two_digits.
  rewrite !char_digit_digit_char by (Z.div_mod_to_equations; lia).
  cbn [mbind option_bind].
  replace (10 * (n / 10) + n mod 10) with n
    by (Z.div_mod_to_equations; lia).
  replace (lo <=? n) with true by (symmetry; apply Z.leb_le; lia).
  replace (n <=? hi) with true by (symmetry; apply Z.leb_le; lia).
  reflexivity.
Qed.

Lemma orelse_two_digits hi lo n r q :
  0 <= n <= 99 -> lo <= n <= hi ->
  orelse (two_digits hi lo) q (pad2 n +:+ r) = Some (n, r).
Proof.
  intros ??. unfold orelse. rewrite two_digits_pad2 by lia. reflexivity.
Qed.

Lemma pad4_split y :
  0 <= y <= 9999 -> pad4 y = pad2 (y / 100) +:+ pad2 (y mod 100).
Proof.
  intros Hy. unfold pad4. rewrite pad2_cons.
  replace (y / 1000) with (y / 100 / 10) by (Z.div_mod_to_equations; lia).
  reflexivity.
Qed.

Lemma re_Y_pad4 y r : 0 <= y <= 9999 -> re_Y (pad4 y +:+ r) = Some (y, r).
Proof.
  intros Hy. unfold re_Y. rewrite pad4_split, append_assoc by lia.
  rewrite two_digits_pad2 by (Z.div_mod_to_equations; lia).
  cbn [mbind option_bind].
  rewrite two_digits_pad2 by (Z.div_mod_to_equations; lia).
  cbn [mbind option_bind]. do 2 f_equal. Z.div_mod_to_equations; lia.
Qed.

Lemma re_b_month_abbr m r :
  1 <= m <= 12 -> re_b (month_abbr m +:+ r) = Some (m, r).
Proof. intros Hm. each_month m Hm; vm_compute; reflexivity. Qed.

Lemma lit_cons c r : lit c (String c r) = Some r.
Proof. unfold lit. rewrite decide_True by reflexivity. reflexivity. Qed.

Lemma re_spaces_blank n r :
  0 <= n <= 99 ->
  re_spaces (String " " (pad2 n +:+ r)) = Some (pad2 n +:+ r).
Proof.
  intros Hn. unfold re_spaces. change (is_space " ") with true. cbv iota.
  rewrite pad2_cons. cbn [skip_spaces].
  rewrite is_space_digit_char by (Z.div_mod_to_equations; lia).
  reflexivity.
Qed.

Lemma year_digits_four y : 1000 <= y -> year_digits y = pad4 y.
Proof.
  intros Hy. unfold year_digits.
  rewrite !(proj2 (Z.ltb_ge _ _)) by lia. reflexivity.
Qed.

(** From the year 1000 on, [strftime] writes [DD-Mon-YYYY HH:MM]. *)
Lemma strftime_four_digits t :
  1000 <= year (dt_date t) ->
  strftime t
  = pad2 (day (dt_date t)) +:+ "-" +:+ month_abbr (month (dt_date t))
    +:+ "-" +:+ pad4 (year (dt_date t)) +:+ " " +:+ pad2 (hour t) +:+ ":"
    +:+ pad2 (minute t).
Proof. intros Hy. unfold strftime. rewrite year_digits_four by exact Hy. reflexivity. Qed.

Lemma char_digit_blank : char_digit " " = None.
Proof. reflexivity. Qed.

(** A year written with fewer than four digits and followed by the
    blank does not match [\d\d\d\d]. *)
Lemma re_Y_short_year y r :
  0 <= y < 1000 -> re_Y (year_digits y +:+ String " " r) = None.
Proof.
  intros Hy. unfold year_digits.
  destruct (Z.ltb_spec y 10); [|destruct (Z.ltb_spec y 100);
    [|rewrite (proj2 (Z.ltb_lt _ _)) by lia]].
  - rewrite append_cons, append_nil_l. unfold re_Y, two_digits.
    rewrite char_digit_digit_char by lia. reflexivity.
  - unfold re_Y. rewrite two_digits_pad2 by lia.
    cbn [mbind option_bind]. destruct r as [|c r]; reflexivity.
  - rewrite append_cons, pad2_cons. unfold re_Y, two_digits.
    rewrite !char_digit_digit_char by (Z.div_mod_to_equations; lia).
    cbn [mbind option_bind].
    destruct (_ && _); cbn [mbind option_bind]; [|reflexivity].
    rewrite char_digit_digit_char by (Z.div_mod_to_equations; lia).
    reflexivity.
Qed.

(** Parsing what [strftime] wrote gives the datetime back, to the
    minute, when the year has four digits. *)
Theorem strptime_strftime t :
  valid_datetime t -> 1000 <= year (dt_date t) ->
  strptime (strftime t) = Some (truncate_minute t).
Proof.
  destruct t as [[y m d] H M S us]. unfold valid_datetime, truncate_minute.
  cbn [dt_date year month day hour minute second microsecond].
  intros (Hd & HH & HM & _ & _) Hy4.
  assert (Hv := proj2 (valid_dateb_spec _) Hd).
  destruct Hd as (Hy & Hm & Hd). cbn [year month day] in *.
  unfold MINYEAR, MAXYEAR in *.
  pose proof (days_in_month_bounds y m Hm) as Hdim.
  unfold strftime, strptime.
  cbn [dt_date year month day hour minute second microsecond].
  rewrite year_digits_four by exact Hy4.
  unfold re_d, re_H, re_M.
  rewrite orelse_two_digits by lia. cbn [mbind option_bind].
  rewrite append_cons, append_nil_l, lit_cons. cbn [mbind option_bind].
  rewrite re_b_month_abbr by lia. cbn [mbind option_bind].
  rewrite append_cons, append_nil_l, lit_cons. cbn [mbind option_bind].
  rewrite re_Y_pad4 by lia. cbn [mbind option_bind].
  rewrite append_cons, append_nil_l, re_spaces_blank by lia.
  cbn [mbind option_bind].
  rewrite orelse_two_digits by lia. cbn [mbind option_bind].
  rewrite append_cons, append_nil_l, lit_cons. cbn [mbind option_bind].
  rewrite <- (append_nil_r (pad2 M)).
  rewrite orelse_two_digits by lia. cbn [mbind option_bind].
  rewrite Hv. reflexivity.
Qed.

(** Before the year 1000 [strptime] rejects what [strftime] wrote: the
    year has fewer than the four digits that [%Y] reads. *)
Theorem strptime_strftime_short_year t :
  valid_datetime t -> year (dt_date t) < 1000 ->
  strptime (strftime t) = None.
Proof.
  destruct t as [[y m d] H M S us]. unfold valid_datetime.
  cbn [dt_date year month day hour minute second microsecond].
  intros (Hd & HH & HM & _ & _) Hy3.
  destruct Hd as (Hy & Hm & Hd). cbn [year month day] in *.
  unfold MINYEAR, MAXYEAR in *.
  pose proof (days_in_month_bounds y m Hm) as Hdim.
  unfold strftime, strptime.
  cbn [dt_date year month day hour minute second microsecond].
  unfold re_d.
  rewrite orelse_two_digits by lia. cbn [mbind option_bind].
  rewrite append_cons, append_nil_l, lit_cons. cbn [mbind option_bind].
  rewrite re_b_month_abbr by lia. cbn [mbind option_bind].
  rewrite append_cons, append_nil_l, lit_cons. cbn [mbind option_bind].
  rewrite append_cons, append_nil_l.
  rewrite re_Y_short_year by lia. reflexivity.
Qed.

End PyFormatFacts.


(** ** [index] and dictionaries *)

Section index_facts.
Context {A : Type} `{EqDecision A}.
Implicit Types (x : A) (l : list A).

Lemma index_Some x l i :
  index x l = Some i <->
  l !! i = Some x /\ forall j y, (j < i)%nat -> l !! j = Some y -> y <> x.
Proof.
  revert i. induction l as [|y l IH]; intros i; cbn [index].
  - split; [discriminate | intros [? _]; discriminate].
  - destruct (decide (y = x)) as [->|Hne].
    + split.
      * intros [= <-]. split; [reflexivity | intros; lia].
      * intros [Hi Hfirst]. destruct i as [|i]; [reflexivity|].
        exfalso. apply (Hfirst 0%nat x); [lia | reflexivity | reflexivity].
    + destruct i as [|i].
      * split.
        -- destruct (index x l); discriminate.
        -- intros [Hi _]. cbn in Hi. congruence.
      * assert (Hfmap : S <$> index x l = Some (S i) <-> index x l = Some i).
        { destruct (index x l); cbn; split; congruence. }
        rewrite Hfmap, IH. cbn [lookup list_lookup]. split.
        -- intros [Hi Hfirst]. split; [exact Hi|].
           intros [|j] z Hj Hz; cbn in Hz; [congruence|].
           apply (Hfirst j); [lia | exact Hz].
        -- intros [Hi Hfirst]. split; [exact Hi|].
           intros j z Hj Hz. apply (Hfirst (S j)); [lia | exact Hz].
Qed.

Lemma index_lookup x l i : index x l = Some i -> l !! i = Some x.
Proof. intros Hi. apply index_Some in Hi. apply Hi. Qed.

Lemma index_elem x l : x ∈ l -> is_Some (index x l).
Proof.
  induction l as [|y l IH]; [intros Hx; inversion Hx|].
  intros Hx. cbn [index]. destruct (decide (y = x)); [eauto|].
  apply elem_of_cons in Hx as [->|Hx]; [congruence|].
  destruct (IH Hx) as [i ->]. eauto.
Qed.

Lemma index_position x l : x ∈ l -> index x l = Some (position x l).
Proof.
  intros Hx. unfold position. destruct (index_elem x l Hx) as [i ->].
  reflexivity.
Qed.

Lemma position_lookup x l : x ∈ l -> l !! position x l = Some x.
Proof. intros Hx. apply index_lookup, index_position, Hx. Qed.

(** [index] never reports the position of a later duplicate. *)
Lemma index_not_later x y l i j :
  l !! i = Some y -> l !! j = Some y -> (i < j)%nat -> index x l <> Some j.
Proof.
  intros Hi Hj Hlt Hx. apply index_Some in Hx as [Hjx Hfirst].
  assert (x = y) as -> by congruence.
  apply (Hfirst i y); [exact Hlt | exact Hi | reflexivity].
Qed.

Lemma index_NoDup x l i : NoDup l -> l !! i = Some x -> index x l = Some i.
Proof.
  intros Hnd Hi. apply index_Some. split; [exact Hi|].
  intros j y Hj Hy ->. pose proof (NoDup_lookup l j i x Hnd Hy Hi). lia.
Qed.
End index_facts.

Module PyDictFacts.
Import PyDict.
Section dict_facts.
Context {K V : Type} `{EqDecision K}.
Implicit Types (k : K) (v : V) (d l : list (K * V)).

Lemma get_assign k k' v d :
  get k (assign k' v d) = if decide (k' = k) then Some v else get k d.
Proof.
  induction d as [|[k0 v0] d IH]; cbn [assign get].
  - reflexivity.
  - destruct (decide (k0 = k')) as [->|Hne]; cbn [get].
    + destruct (decide (k' = k)); reflexivity.
    + rewrite IH. destruct (decide (k0 = k)) as [->|];
        [rewrite decide_False by congruence|]; reflexivity.
Qed.

Lemma get_Some_elem k v d : get k d = Some v -> (k, v) ∈ d.
Proof.
  induction d as [|[k0 v0] d IH]; cbn [get]; [discriminate|].
  destruct (decide (k0 = k)) as [->|].
  - intros [= ->]. apply elem_of_cons. left. reflexivity.
  - intros Hg. apply elem_of_cons. right. apply IH, Hg.
Qed.

Lemma get_None k d : get k d = None <-> k ∉ keys d.
Proof.
  unfold keys. induction d as [|[k0 v0] d IH]; cbn [get fmap list_fmap].
  - split; [intros _ Hin; inversion Hin | reflexivity].
  - rewrite not_elem_of_cons. cbn [fst].
    destruct (decide (k0 = k)) as [->|Hne].
    + split; [discriminate | intros [Hk _]; congruence].
    + rewrite IH. split; [intros ?; split; congruence | intros [_ ?]; assumption].
Qed.

Lemma get_is_Some k d : is_Some (get k d) <-> k ∈ keys d.
Proof.
  rewrite <- not_eq_None_Some, get_None.
  split; [apply dec_stable | intros ? Hn; apply Hn; assumption].
Qed.

Lemma get_NoDup k v d : wf d -> (k, v) ∈ d -> get k d = Some v.
Proof.
  unfold wf, keys. induction d as [|[k0 v0] d IH]; cbn [get fmap list_fmap].
  - intros _ Hin. inversion Hin.
  - rewrite NoDup_cons. cbn [fst]. intros [Hk0 Hnd] Hin.
    apply elem_of_cons in Hin as [[= -> ->]|Hin].
    + rewrite decide_True by reflexivity. reflexivity.
    + destruct (decide (k0 = k)) as [->|]; [|apply IH; assumption].
      exfalso. apply Hk0. apply list_elem_of_fmap.
      exists (k, v). split; [reflexivity | exact Hin].
Qed.

Lemma mem_true k d : mem k d = true <-> k ∈ keys d.
Proof.
  unfold mem. rewrite <- get_is_Some.
  destruct (get k d); split; eauto; try discriminate.
  intros [? ?]. discriminate.
Qed.

Lemma mem_false k d : mem k d = false <-> k ∉ keys d.
Proof.
  rewrite <- mem_true. destruct (mem k d); split; congruence.
Qed.

(** Assigning to a key that is absent appends the item. *)
Lemma assign_fresh k v d : k ∉ keys d -> assign k v d = d ++ [(k, v)].
Proof.
  unfold keys. induction d as [|[k0 v0] d IH]; cbn [assign fmap list_fmap].
  - reflexivity.
  - rewrite not_elem_of_cons. cbn [fst]. intros [Hne Hk].
    rewrite decide_False by congruence. rewrite IH by assumption.
    reflexivity.
Qed.

Lemma get_foldl_assign k l d :
  get k (foldl (fun d kv => assign kv.1 kv.2 d) d l) =
    match last (filter (fun kv => kv.1 = k) l) with
    | Some kv => Some kv.2
    | None => get k d
    end.
Proof.
  revert d. induction l as [|[k0 v0] l IH] using rev_ind; intros d.
  - reflexivity.
  - rewrite foldl_app, filter_app. cbn [foldl fst snd].
    rewrite get_assign. rewrite filter_cons, filter_nil. cbn [fst].
    destruct (decide (k0 = k)) as [->|Hne].
    + rewrite last_snoc. reflexivity.
    + rewrite app_nil_r. apply IH.
Qed.

Lemma get_of_items_None k l : k ∉ l.*1 -> get k (of_items l) = None.
Proof.
  intros Hk. unfold of_items. rewrite get_foldl_assign.
  destruct (last _) as [[k0 v0]|] eqn:E; [|reflexivity].
  exfalso. apply Hk. apply last_Some_elem_of in E.
  apply list_elem_of_filter in E as [E Hin]. cbn in E. subst k0.
  apply list_elem_of_fmap. exists (k, v0). split; [reflexivity | exact Hin].
Qed.

Lemma get_of_items_elem k v l : get k (of_items l) = Some v -> (k, v) ∈ l.
Proof.
  unfold of_items. rewrite get_foldl_assign.
  destruct (last _) as [[k0 v0]|] eqn:E; [|discriminate].
  intros [= <-]. apply last_Some_elem_of in E.
  apply list_elem_of_filter in E as [E Hin]. cbn in E. subst k0. exact Hin.
Qed.

(** When every item under a key carries the same value, that is the
    value of the key. *)
Lemma get_of_items_agree k v l :
  (k, v) ∈ l -> (forall v', (k, v') ∈ l -> v' = v) ->
  get k (of_items l) = Some v.
Proof.
  intros Hin Hagree.
  destruct (get k (of_items l)) as [v'|] eqn:E.
  - apply get_of_items_elem in E. f_equal. apply Hagree, E.
  - apply get_None in E. exfalso. apply E.
    unfold of_items.
    assert (Hs : is_Some (get k (of_items l))).
    { unfold of_items. rewrite get_foldl_assign.
      destruct (last _) as [kv|] eqn:E'; [eauto|].
      apply last_None in E'.
      assert (Hf : (k, v) ∈ filter (fun kv : K * V => kv.1 = k) l).
      { apply list_elem_of_filter. split; [reflexivity | exact Hin]. }
      rewrite E' in Hf. inversion Hf. }
    apply get_is_Some in Hs. exact Hs.
Qed.
End dict_facts.
End PyDictFacts.

(** ** Helpers on [mapM] *)

Section mapM_facts.
Context {A B : Type} (f : A -> option B).

Lemma mapM_total (g : A -> B) l :
  (forall x, x ∈ l -> f x = Some (g x)) -> mapM f l = Some (g <$> l).
Proof.
  intros Hall. apply mapM_Some_2, Forall2_fmap_r, Forall_Forall2_diag.
  apply Forall_forall. exact Hall.
Qed.

Lemma mapM_Some_elem_r l k y :
  mapM f l = Some k -> y ∈ k -> exists x, x ∈ l /\ f x = Some y.
Proof.
  intros Hm%mapM_Some_1 Hy.
  induction Hm as [|x y' l k Hxy _ IH]; [inversion Hy|].
  apply elem_of_cons in Hy as [->|Hy].
  - exists x. split; [apply elem_of_cons; left; reflexivity | exact Hxy].
  - destruct (IH Hy) as (x' & Hx' & Hf). exists x'.
    split; [apply elem_of_cons; right; exact Hx' | exact Hf].
Qed.

Lemma mapM_Some_elem_l l k x :
  mapM f l = Some k -> x ∈ l -> exists y, y ∈ k /\ f x = Some y.
Proof.
  intros Hm%mapM_Some_1 Hx.
  induction Hm as [|x' y l k Hxy _ IH]; [inversion Hx|].
  apply elem_of_cons in Hx as [->|Hx].
  - exists y. split; [apply elem_of_cons; left; reflexivity | exact Hxy].
  - destruct (IH Hx) as (y' & Hy' & Hf). exists y'.
    split; [apply elem_of_cons; right; exact Hy' | exact Hf].
Qed.
End mapM_facts.



(** ** The builders: [types_and_slots] and [types_and_events] *)

Module BuilderFacts.
Import PyDatetime PyFormat PyDatetimeFacts PyFormatFacts.
Import Denormalise Conditions Samples.

Lemma typed_slot_within_day it :
  Described.within_day it -> four_digit_year it ->
  typed_slot it = Some (Described.slot_pair it).
Proof.
  destruct it as [[[venue d] session] slot]. intros [Hv Hs] Hy.
  unfold typed_slot. rewrite add_seconds_midnight by assumption.
  cbn [mbind option_bind Described.slot_pair]. do 3 f_equal.
  apply strftime_four_digits. exact Hy.
Qed.

Lemma typed_slot_returns it :
  Described.within_day it -> is_Some (typed_slot it).
Proof.
  destruct it as [[[venue d] session] slot]. intros [Hv Hs].
  unfold typed_slot. rewrite add_seconds_midnight by assumption. eauto.
Qed.

Lemma typed_slot_inv it ts :
  typed_slot it = Some ts ->
  let '(venue, d, session, slot) := it in
  exists t,
    add_seconds (combine_midnight d) (SlotDef.starts_at slot) = Some t /\
    ts = TypedSlot.Make (SlotDef.event_type slot)
           (Slot.Make venue (strftime t) (SlotDef.duration slot)
              (Described.session_label d session) (SlotDef.capacity slot)).
Proof.
  destruct it as [[[venue d] session] slot]. unfold typed_slot.
  destruct (add_seconds _ _) as [t|]; [|discriminate].
  intros [= <-]. exists t. split; reflexivity.
Qed.

Lemma mapM_typed_slot_within_day its :
  Forall Described.within_day its -> Forall four_digit_year its ->
  mapM typed_slot its = Some (Described.slot_pair <$> its).
Proof.
  intros Hall Hyears. apply mapM_total. intros it Hit.
  rewrite Forall_forall in Hall, Hyears.
  apply typed_slot_within_day; auto.
Qed.

Lemma types_and_slots_returns venues :
  Forall Described.within_day (slot_iteration venues) ->
  is_Some (types_and_slots venues).
Proof.
  intros Hall. unfold types_and_slots. apply mapM_is_Some.
  eapply Forall_impl; [exact Hall|]. apply typed_slot_returns.
Qed.

Lemma within_day_hall_a :
  Forall Described.within_day (slot_iteration hall_a).
Proof. repeat constructor; vm_compute; discriminate. Qed.

Lemma four_digit_year_hall_a :
  Forall four_digit_year (slot_iteration hall_a).
Proof. repeat constructor; vm_compute; discriminate. Qed.

Lemma within_day_hall_a_999 :
  Forall Described.within_day (slot_iteration hall_a_999).
Proof. repeat constructor; vm_compute; discriminate. Qed.

(** C5 fails on a day before the year 1000.  For Hall A on 0999-01-01,
    session AM, at offset 32400, the claim gives the start
    [01-Jan-0999 09:00]; [types_and_slots] writes [01-Jan-999 09:00],
    the year with three digits, beside the label [0999-01-01 AM] of the
    same record, which has four. *)
Theorem types_and_slots_short_year :
  Forall Described.within_day (slot_iteration hall_a_999) /\
  types_and_slots hall_a_999
  = Some [TypedSlot.Make "talk"
            (Slot.Make "Hall A" "01-Jan-999 09:00" 30 "0999-01-01 AM" 100)]
  /\
  Described.slot_pair <$> slot_iteration hall_a_999
  = [TypedSlot.Make "talk"
       (Slot.Make "Hall A" "01-Jan-0999 09:00" 30 "0999-01-01 AM" 100)].
Proof.
  split; [exact within_day_hall_a_999|].
  split; vm_compute; reflexivity.
Qed.

(** C6 fails on a day before the year 1000.  For Hall A on 0999-01-01
    at offset 32400, [types_and_slots] writes the start
    [01-Jan-999 09:00]; [to_datetime] does not read it back, and
    [unavailability] raises on the slot.  The same instant written with
    four digits is read. *)
Theorem short_year_is_not_read_back :
  exists ts,
    types_and_slots hall_a_999 = Some [ts] /\
    Slot.starts_at (TypedSlot.slot ts) = "01-Jan-999 09:00"%string /\
    to_datetime (Slot.starts_at (TypedSlot.slot ts)) = None /\
    unavailability [keynote_alice] [TypedSlot.slot ts]
      [("alice"%string, [all_day_999])] = None /\
    to_datetime "01-Jan-0999 09:00" = Some (Datetime jan1_999 9 0 0 0).
Proof.
  eexists. split; [vm_compute; reflexivity|].
  split_and!; vm_compute; reflexivity.
Qed.

(** X20.  Whenever [types_and_slots] returns, it returns one pair per
    slot specification, in the order venue, day, session, slot; the pair
    carries the event type, and the slot carries the venue, the sum of
    midnight of the day and the offset formatted with
    [%d-%b-%Y %H:%M], the duration, the label ["{day} {session}"] and the
    capacity.  It does return for days of the calendar with offsets
    inside the day; when the days are in the years from 1000 on, the
    start reads [DD-Mon-YYYY HH:MM] with the date of the day and the
    hour and minute of the offset.  Hall A on 2017-10-26, session AM, at
    offset 32400 gives [26-Oct-2017 09:00] and [2017-10-26 AM]. *)
Theorem types_and_slots_emits venues :
  (forall l,
     types_and_slots venues = Some l ->
     Forall2 (fun it ts =>
                let '(venue, d, session, slot) := it in
                exists t,
                  add_seconds (combine_midnight d) (SlotDef.starts_at slot)
                  = Some t /\
                  ts = TypedSlot.Make (SlotDef.event_type slot)
                         (Slot.Make venue (strftime t)
                            (SlotDef.duration slot)
                            (Described.session_label d session)
                            (SlotDef.capacity slot)))
             (slot_iteration venues) l) /\
  (Forall Described.within_day (slot_iteration venues) ->
   is_Some (types_and_slots venues) /\
   (Forall four_digit_year (slot_iteration venues) ->
    types_and_slots venues
    = Some (Described.slot_pair <$> slot_iteration venues))) /\
  types_and_slots hall_a
  = Some [TypedSlot.Make "talk"
            (Slot.Make "Hall A" "26-Oct-2017 09:00" 30 "2017-10-26 AM" 100)].
Proof.
  split_and!.
  - intros l Hl. apply mapM_Some_1 in Hl.
    eapply Forall2_impl; [exact Hl|]. apply typed_slot_inv.
  - intros Hall. split; [apply types_and_slots_returns, Hall|].
    intros Hyears. apply mapM_typed_slot_within_day; assumption.
  - vm_compute. reflexivity.
Qed.

Lemma types_and_slots_emits_hall_a :
  Forall Described.within_day (slot_iteration hall_a) /\
  Forall four_digit_year (slot_iteration hall_a) /\
  types_and_slots hall_a
  = Some (Described.slot_pair <$> slot_iteration hall_a).
Proof.
  split; [exact within_day_hall_a|].
  split; [exact four_digit_year_hall_a|].
  exact (proj2 (proj1 (proj2 (types_and_slots_emits hall_a))
                  within_day_hall_a) four_digit_year_hall_a).
Defined.

(** X21.  Whenever [types_and_slots] returns, parsing the timestamp of
    a slot with the pattern it was written with gives the sum of
    midnight and the offset, cut to whole minutes, when the year of the
    sum is 1000 or later, and raises when it is earlier.  For a day of
    the calendar and an offset inside the day, the sum is the day itself
    and the offset; and for such input [types_and_slots] does return. *)
Theorem timestamp_round_trip venues :
  (Forall Described.within_day (slot_iteration venues) ->
   is_Some (types_and_slots venues)) /\
  (forall l,
     types_and_slots venues = Some l ->
     Forall2 (fun it ts =>
                let '(_, d, _, slot) := it in
                exists t,
                  add_seconds (combine_midnight d) (SlotDef.starts_at slot)
                  = Some t /\
                  to_datetime (Slot.starts_at (TypedSlot.slot ts))
                  = (if 1000 <=? year (dt_date t)
                     then Some (truncate_minute t) else None) /\
                  (Described.within_day it ->
                   dt_date t = d /\
                   hour t * 3600 + minute t * 60
                   = 60 * (SlotDef.starts_at slot / 60) /\
                   0 <= minute t < 60))
             (slot_iteration venues) l).
Proof.
  split.
  - apply types_and_slots_returns.
  - intros l Hl. apply mapM_Some_1 in Hl.
    eapply Forall2_impl; [exact Hl|].
    intros [[[venue d] session] slot] ts Hts.
    apply typed_slot_inv in Hts as (t & Ht & ->). exists t.
    split; [exact Ht|]. cbn [TypedSlot.slot Slot.starts_at].
    assert (Hvalid : valid_datetime t).
    { eapply add_seconds_valid; [|exact Ht]. cbn. lia. }
    split.
    + unfold to_datetime. destruct (Z.leb_spec 1000 (year (dt_date t))).
      * apply strptime_strftime; assumption.
      * apply strptime_strftime_short_year; assumption.
    + intros [Hv Hs]. rewrite add_seconds_midnight in Ht by assumption.
      injection Ht as <-. cbn [dt_date hour minute].
      split_and!; try reflexivity; Z.div_mod_to_equations; lia.
Qed.

Lemma timestamp_round_trip_hall_a :
  Forall Described.within_day (slot_iteration hall_a) /\
  is_Some (types_and_slots hall_a) /\
  forall l,
    types_and_slots hall_a = Some l ->
    Forall2 (fun it ts =>
               let '(_, d, _, slot) := it in
               exists t,
                 add_seconds (combine_midnight d) (SlotDef.starts_at slot)
                 = Some t /\
                 to_datetime (Slot.starts_at (TypedSlot.slot ts))
                 = (if 1000 <=? year (dt_date t)
                    then Some (truncate_minute t) else None) /\
                 (Described.within_day it ->
                  dt_date t = d /\
                  hour t * 3600 + minute t * 60
                  = 60 * (SlotDef.starts_at slot / 60) /\
                  0 <= minute t < 60))
            (slot_iteration hall_a) l.
Proof.
  split; [exact within_day_hall_a|].
  split; [exact (proj1 (timestamp_round_trip hall_a) within_day_hall_a)|].
  exact (proj2 (timestamp_round_trip hall_a)).
Defined.

(** C8, as the code has it.  [types_and_events] returns one pair per
    event specification, in input order: the event-type tag beside an
    [Event] of the title, the duration and the tags, with no demand.
    The owning person is not part of what is returned: changing it
    changes nothing. *)
Theorem types_and_events_emits events_definition :
  length (types_and_events events_definition) = length events_definition /\
  (forall i event,
     events_definition !! i = Some event ->
     types_and_events events_definition !! i
     = Some (Described.event_pair event)) /\
  (forall p,
     types_and_events (Described.with_person p <$> events_definition)
     = types_and_events events_definition).
Proof.
  unfold types_and_events. split_and!.
  - apply length_fmap.
  - intros i event Hi. rewrite list_lookup_fmap, Hi. reflexivity.
  - intros p. rewrite <- list_fmap_compose. apply list_fmap_ext.
    intros _ [] _. reflexivity.
Qed.

(** C8 as stated fails: two specifications that differ in the owning
    person only are emitted as the same pair, so the emitted record does
    not carry the person. *)
Lemma types_and_events_drops_person :
  EventDef.person keynote_alice <> EventDef.person keynote_bob /\
  types_and_events [keynote_alice] = types_and_events [keynote_bob] /\
  ~ exists owner : TypedEvent.t -> string,
      forall events_definition,
        owner <$> types_and_events events_definition
        = EventDef.person <$> events_definition.
Proof.
  split_and!.
  - discriminate.
  - reflexivity.
  - intros [owner Howner].
    pose proof (Howner [keynote_alice]) as Ha.
    pose proof (Howner [keynote_bob]) as Hb.
    cbn in Ha, Hb. congruence.
Qed.

End BuilderFacts.


(** ** [unsuitability] *)

Module UnsuitabilityFacts.
Import Denormalise Samples PyDictFacts.



(** The pairs the loop assigns, in order. *)
Lemma unsuitability_loop_items tas evs rest out :
  (forall e, e ∈ rest -> e ∈ evs) ->
  unsuitability_loop tas evs rest out
  = Some (foldl (fun d kv => PyDict.assign kv.1 kv.2 d) out
            ((fun e => (position e evs, unsuitable_slots tas e)) <$> rest)).
Proof.
  revert out. induction rest as [|e rest IH]; intros out Hsub.
  - reflexivity.
  - cbn [unsuitability_loop fmap list_fmap foldl].
    rewrite index_position by (apply Hsub, elem_of_cons; left; reflexivity).
    cbn [mbind option_bind]. rewrite IH; [reflexivity|].
    intros e' He'. apply Hsub, elem_of_cons. right. exact He'.
Qed.

Lemma unsuitability_items tas evs :
  unsuitability tas evs
  = Some (PyDict.of_items
            ((fun e => (position e evs, unsuitable_slots tas e)) <$> evs)).
Proof. unfold unsuitability. apply unsuitability_loop_items. auto. Qed.

Lemma unsuitability_entry tas evs e :
  e ∈ evs ->
  PyDict.get (position e evs)
    (PyDict.of_items
       ((fun e => (position e evs, unsuitable_slots tas e)) <$> evs))
  = Some (unsuitable_slots tas e).
Proof.
  intros He. apply get_of_items_agree.
  - apply list_elem_of_fmap. exists e. split; [reflexivity | exact He].
  - intros v' Hin. apply list_elem_of_fmap in Hin as (e' & [= Hpos ->] & He').
    assert (e' = e) as ->; [|reflexivity].
    pose proof (position_lookup e evs He) as H1.
    pose proof (position_lookup e' evs He') as H2.
    rewrite <- Hpos in H2. congruence.
Qed.

Lemma unsuitability_keys tas evs k :
  k ∈ PyDict.keys
        (PyDict.of_items
           ((fun e => (position e evs, unsuitable_slots tas e)) <$> evs)) ->
  exists e, e ∈ evs /\ index e evs = Some k.
Proof.
  intros Hk. apply get_is_Some in Hk as [v Hv].
  apply get_of_items_elem, list_elem_of_fmap in Hv as (e & [= -> ->] & He).
  exists e. split; [exact He | apply index_position, He].
Qed.



End UnsuitabilityFacts.


(** ** [unavailability] *)

Module UnavailabilityFacts.
Import PyDatetime PyFormat Denormalise Samples PyDictFacts.

(** What the list of one event holds: the index, by value, of every slot
    within some period. *)
Lemma elem_of_unavailable_slots periods slots v k :
  unavailable_slots periods slots = Some v ->
  k ∈ v <->
  exists period slot,
    period ∈ periods /\ slot ∈ slots /\
    slot_in_period period slot = Some true /\ index slot slots = Some k.
Proof.
  unfold unavailable_slots. intros Hv.
  apply fmap_Some in Hv as (per_period & Hm & ->).
  rewrite list_elem_of_join. split.
  - intros (ks & Hk & Hks).
    destruct (mapM_Some_elem_r _ _ _ _ Hm Hks) as (period & Hp & Hper).
    apply fmap_Some in Hper as (per_slot & Hm' & ->).
    apply list_elem_of_join in Hk as (ks' & Hk & Hks').
    destruct (mapM_Some_elem_r _ _ _ _ Hm' Hks') as (slot & Hs & Hslot).
    exists period, slot. split; [exact Hp|]. split; [exact Hs|].
    destruct (slot_in_period period slot) as [[|]|];
      cbn [mbind option_bind] in Hslot; [| |discriminate].
    + destruct (index slot slots) as [i|];
        cbn [mbind option_bind] in Hslot; [|discriminate].
      injection Hslot as <-. apply list_elem_of_singleton in Hk as ->.
      split; reflexivity.
    + injection Hslot as <-. inversion Hk.
  - intros (period & slot & Hp & Hs & Hin & Hi).
    destruct (mapM_Some_elem_l _ _ _ _ Hm Hp) as (ks & Hks & Hper).
    apply fmap_Some in Hper as (per_slot & Hm' & ->).
    destruct (mapM_Some_elem_l _ _ _ _ Hm' Hs) as (ks' & Hks' & Hslot).
    rewrite Hin in Hslot. cbn [mbind option_bind] in Hslot.
    rewrite Hi in Hslot. cbn [mbind option_bind] in Hslot.
    injection Hslot as <-.
    exists (mjoin per_slot). split; [|exact Hks].
    apply list_elem_of_join. exists [k].
    split; [apply list_elem_of_singleton; reflexivity | exact Hks'].
Qed.

(** Every entry of the result comes from an event of a person of the
    definition. *)
Lemma unavailability_entry_inv evs slots ud m k v :
  unavailability evs slots ud = Some m ->
  PyDict.get k m = Some v ->
  exists periods event,
    (EventDef.person event, periods) ∈ ud /\ event ∈ evs /\
    index event evs = Some k /\ unavailable_slots periods slots = Some v.
Proof.
  unfold unavailability. intros Hu Hget.
  apply bind_Some in Hu as (items & Hm & [= <-]).
  apply get_of_items_elem, list_elem_of_join in Hget as (kvs & Hkv & Hkvs).
  destruct (mapM_Some_elem_r _ _ _ _ Hm Hkvs) as ([person periods] & Hp & Hper).
  destruct (mapM_Some_elem_r _ _ _ _ Hper Hkv) as (event & He & Hev).
  apply list_elem_of_filter in He as [<- He].
  exists periods, event.
  destruct (index event evs) as [i|]; cbn [mbind option_bind] in Hev;
    [|discriminate].
  destruct (unavailable_slots periods slots) as [v'|];
    cbn [mbind option_bind] in Hev; [|discriminate].
  injection Hev as <- <-. split_and!; try assumption; reflexivity.
Qed.

Lemma unavailability_entry evs slots ud m event periods :
  PyDict.wf ud ->
  unavailability evs slots ud = Some m ->
  event ∈ evs -> PyDict.get (EventDef.person event) ud = Some periods ->
  exists i v,
    index event evs = Some i /\ PyDict.get i m = Some v /\
    unavailable_slots periods slots = Some v.
Proof.
  unfold unavailability. intros Hwf Hu He Hper.
  apply bind_Some in Hu as (items & Hm & [= <-]).
  apply get_Some_elem in Hper.
  destruct (mapM_Some_elem_l _ _ _ _ Hm Hper) as (kvs & Hkvs & Hmk).
  assert (Hf : event ∈ filter
                 (fun e => EventDef.person e = EventDef.person event) evs).
  { apply list_elem_of_filter. split; [reflexivity | exact He]. }
  destruct (mapM_Some_elem_l _ _ _ _ Hmk Hf) as ([i v] & Hiv & Hev).
  destruct (index event evs) as [i'|] eqn:Hi;
    cbn [mbind option_bind] in Hev; [|discriminate].
  destruct (unavailable_slots periods slots) as [v'|] eqn:Hv;
    cbn [mbind option_bind] in Hev; [|discriminate].
  injection Hev as <- <-.
  exists i', v'. split; [reflexivity|]. split; [|reflexivity].
  apply get_of_items_agree.
  - apply list_elem_of_join. exists kvs. split; assumption.
  - intros v'' Hin.
    apply list_elem_of_join in Hin as (kvs' & Hkv' & Hkvs').
    destruct (mapM_Some_elem_r _ _ _ _ Hm Hkvs')
      as ([person' periods'] & Hp' & Hper').
    destruct (mapM_Some_elem_r _ _ _ _ Hper' Hkv') as (event' & He' & Hev').
    apply list_elem_of_filter in He' as [<- He'].
    destruct (index event' evs) as [i''|] eqn:Hi';
      cbn [mbind option_bind] in Hev'; [|discriminate].
    destruct (unavailable_slots periods' slots) as [w|] eqn:Hw;
      cbn [mbind option_bind] in Hev'; [|discriminate].
    injection Hev' as -> <-.
    apply index_lookup in Hi, Hi'.
    assert (event' = event) as -> by congruence.
    assert (periods' = periods) as ->.
    { pose proof (get_NoDup _ _ _ Hwf Hp') as G1.
      pose proof (get_NoDup _ _ _ Hwf Hper) as G2. congruence. }
    congruence.
Qed.

(** With slots whose start parses and whose end is on the calendar,
    nothing raises. *)
Lemma slot_in_period_returns period slot :
  Conditions.well_timed slot -> is_Some (slot_in_period period slot).
Proof.
  intros (start & Hs & [finish Hf]). unfold slot_in_period. rewrite Hs.
  cbn [mbind option_bind]. destruct (le _ _); [|eauto].
  rewrite Hf. cbn [mbind option_bind]. eauto.
Qed.

Lemma unavailable_slots_returns periods slots :
  Forall Conditions.well_timed slots ->
  is_Some (unavailable_slots periods slots).
Proof.
  intros Hall. unfold unavailable_slots.
  apply fmap_is_Some, mapM_is_Some, Forall_forall. intros period _.
  apply fmap_is_Some, mapM_is_Some, Forall_forall. intros slot Hs.
  rewrite Forall_forall in Hall. unfold compose. cbv beta.
  destruct (slot_in_period_returns period slot (Hall slot Hs)) as [b ->].
  cbn [mbind option_bind]. destruct b; [|eauto].
  destruct (index_elem slot slots Hs) as [i ->]. eauto.
Qed.

Lemma unavailability_returns evs slots ud :
  Forall Conditions.well_timed slots ->
  is_Some (unavailability evs slots ud).
Proof.
  intros Hall. unfold unavailability.
  match goal with
  | |- is_Some (?m ≫= _) => assert (H : is_Some m); [|destruct H as [? ->]; eauto]
  end.
  apply mapM_is_Some, Forall_forall. intros [person periods] _.
  apply mapM_is_Some, Forall_forall. intros event He.
  apply list_elem_of_filter in He as [_ He]. unfold compose. cbv beta.
  destruct (index_elem event evs He) as [i ->]. cbn [mbind option_bind].
  destruct (unavailable_slots_returns periods slots Hall) as [v ->]. eauto.
Qed.

(** An event whose owner has no entry in the definition gets no entry
    in the result. *)
Lemma unavailability_absent evs slots ud m event i :
  unavailability evs slots ud = Some m ->
  evs !! i = Some event -> EventDef.person event ∉ PyDict.keys ud ->
  PyDict.get i m = None.
Proof.
  intros Hu Hi Hperson.
  destruct (PyDict.get i m) as [v|] eqn:Hget; [|reflexivity].
  destruct (unavailability_entry_inv _ _ _ _ _ _ Hu Hget)
    as (periods & event' & Hin & _ & Hidx & _).
  apply index_lookup in Hidx. assert (event' = event) as -> by congruence.
  exfalso. apply Hperson. apply list_elem_of_fmap.
  exists (EventDef.person event, periods). split; [reflexivity | exact Hin].
Qed.

(** With no two slots equal, the list of an event holds exactly the
    positions of the slots within some period. *)
Lemma unavailable_slots_NoDup periods slots v k :
  NoDup slots ->
  unavailable_slots periods slots = Some v ->
  k ∈ v <->
  exists period slot,
    period ∈ periods /\ slots !! k = Some slot /\
    slot_in_period period slot = Some true.
Proof.
  intros Hnd Hv. rewrite (elem_of_unavailable_slots _ _ _ _ Hv). split.
  - intros (period & slot & Hp & Hs & Hin & Hi).
    exists period, slot. split_and!; try assumption.
    apply index_lookup, Hi.
  - intros (period & slot & Hp & Hk & Hin).
    exists period, slot. split_and!; try assumption.
    + apply list_elem_of_lookup. eauto.
    + apply index_NoDup; assumption.
Qed.

(** The test on one slot: both ends of the slot lie within the period,
    the bounds of the period included. *)
Lemma slot_in_period_true period slot :
  slot_in_period period slot = Some true <->
  exists start finish,
    to_datetime (Slot.starts_at slot) = Some start /\
    add_seconds start (Slot.duration slot * 60) = Some finish /\
    le (Period.unavailable_from period) start = true /\
    le finish (Period.unavailable_until period) = true.
Proof.
  unfold slot_in_period, ge. split.
  - destruct (to_datetime (Slot.starts_at slot)) as [start|];
      cbn [mbind option_bind]; [|discriminate].
    destruct (le (Period.unavailable_from period) start) eqn:Hfrom;
      [|discriminate].
    cbn [mbind option_bind].
    destruct (add_seconds start (Slot.duration slot * 60))
      as [finish|] eqn:Hfinish; cbn [mbind option_bind]; [|discriminate].
    intros [= Huntil]. exists start, finish.
    split_and!; try reflexivity; assumption.
  - intros (start & finish & -> & Hfinish & Hfrom & Huntil).
    cbn [mbind option_bind]. rewrite Hfrom. cbn [mbind option_bind].
    rewrite Hfinish. cbn [mbind option_bind]. rewrite Huntil. reflexivity.
Qed.

(** What [unavailability] returns when no two slots are equal: the
    entry of an event whose owner has periods holds exactly the
    positions of the slots within one of them, and an event whose owner
    has none has no entry. *)
Lemma unavailability_distinct_slots evs slots ud m :
  PyDict.wf ud -> NoDup slots ->
  unavailability evs slots ud = Some m ->
  (forall event periods,
     event ∈ evs -> PyDict.get (EventDef.person event) ud = Some periods ->
     exists i v,
       index event evs = Some i /\ PyDict.get i m = Some v /\
       forall k, k ∈ v <->
         exists period slot,
           period ∈ periods /\ slots !! k = Some slot /\
           slot_in_period period slot = Some true) /\
  (forall i event,
     evs !! i = Some event -> EventDef.person event ∉ PyDict.keys ud ->
     PyDict.get i m = None).
Proof.
  intros Hwf Hnd Hrun. split.
  - intros event periods He Hperiods.
    destruct (unavailability_entry _ _ _ _ _ _ Hwf Hrun He Hperiods)
      as (i & v & Hi & Hget & Hv).
    exists i, v. split_and!; try assumption.
    intros k. apply unavailable_slots_NoDup; assumption.
  - intros i event Hi Hperson.
    exact (unavailability_absent _ _ _ _ _ _ Hrun Hi Hperson).
Qed.

(** Alice is away from 09:00 to 10:00: the slot from 09:00 to 09:30 is
    listed, the slot from 09:45 to 10:15 is not. *)
Example unavailability_nine_to_ten :
  unavailability [keynote_alice] [hall_a_0900; hall_a_0945]
    [("alice"%string, [nine_to_ten])]
  = Some [(0%nat, [0%nat])].
Proof. vm_compute. reflexivity. Qed.

(** C2, where the code departs from it.  Hall A at 09:00 is offered to
    talks and to workshops; [types_and_slots] emits two equal [Slot]
    records, at positions 0 and 1.  Alice is away all day.  Both slots
    lie within the period, and the list of her event holds position 0
    twice and position 1 never. *)
Theorem unavailability_misses_equal_slot :
  (fun l : list TypedSlot.t => TypedSlot.slot <$> l)
    <$> types_and_slots shared_block
  = Some [hall_a_0900; hall_a_0900] /\
  slot_in_period all_day hall_a_0900 = Some true /\
  unavailability [keynote_alice] [hall_a_0900; hall_a_0900] alice_all_day
  = Some [(0%nat, [0%nat; 0%nat])] /\
  1%nat ∉ [0%nat; 0%nat].
Proof.
  split_and!; [vm_compute; reflexivity ..|].
  intros H. apply elem_of_cons in H as [H|H]; [discriminate|].
  apply elem_of_cons in H as [H|H]; [discriminate | inversion H].
Qed.

End UnavailabilityFacts.


(** ** [clashes] *)

Module ClashesFacts.
Import Denormalise ClashesPure Samples PyDictFacts.

(** *** The first loop *)

Lemma elem_of_missing persons known q :
  q ∈ missing persons known <-> q ∈ persons /\ q ∉ known.
Proof.
  revert known. induction persons as [|p rest IH]; intros known.
  - cbn. split; [intros H; inversion H | intros [H _]; inversion H].
  - cbn [missing]. rewrite elem_of_cons. case_bool_decide as Hp.
    + rewrite IH. split.
      * intros [? ?]. auto.
      * intros [[->|?] Hq]; [contradiction | auto].
    + rewrite elem_of_cons, IH, not_elem_of_app, list_elem_of_singleton.
      split.
      * intros [->|[? [? ?]]]; auto.
      * intros [[->|Hq] Hk]; [auto|].
        destruct (decide (q = p)) as [->|]; auto.
Qed.

Lemma NoDup_missing persons known : NoDup (missing persons known).
Proof.
  revert known. induction persons as [|p rest IH]; intros known.
  - constructor.
  - cbn [missing]. case_bool_decide; [apply IH|].
    constructor; [|apply IH].
    rewrite elem_of_missing, not_elem_of_app, list_elem_of_singleton.
    intros [_ [_ Hp]]. congruence.
Qed.

Lemma fresh_entries_cons len p added :
  fresh_entries len (p :: added)
  = (p, len) :: fresh_entries (S len) added.
Proof.
  unfold fresh_entries. cbn [imap]. rewrite Nat.add_0_r. f_equal.
  apply imap_ext. intros i q _. cbn. f_equal. lia.
Qed.

Lemma fresh_entries_keys len added :
  PyDict.keys (fresh_entries len added) = added.
Proof.
  revert len. induction added as [|p added IH]; intros len; [reflexivity|].
  rewrite fresh_entries_cons. unfold PyDict.keys in *.
  cbn [fmap list_fmap fst]. rewrite IH. reflexivity.
Qed.

Lemma elem_of_fresh_entries len added p l :
  (p, l) ∈ fresh_entries len added <->
  exists i, added !! i = Some p /\ l = (len + i)%nat.
Proof.
  unfold fresh_entries. rewrite elem_of_lookup_imap. split.
  - intros (i & q & [= -> ->] & Hi). eauto.
  - intros (i & Hi & ->). eauto.
Qed.

(** What the first loop leaves: the new entries follow the old ones,
    each with a fresh list that holds its person only. *)
Lemma add_missing_spec persons s :
  let added := missing persons (PyDict.keys (mapping s)) in
  add_missing persons s
  = Store (mapping s ++ fresh_entries (length (lists s)) added)
          (lists s ++ ((fun p => [p]) <$> added)).
Proof.
  revert s. induction persons as [|p rest IH]; intros [m h]; cbv zeta.
  - cbn [add_missing missing mapping lists fresh_entries imap fmap list_fmap].
    rewrite !app_nil_r. reflexivity.
  - cbn [add_missing missing mapping lists].
    destruct (PyDict.mem p m) eqn:Hmem.
    + apply mem_true in Hmem. rewrite bool_decide_eq_true_2 by exact Hmem.
      apply (IH (Store m h)).
    + apply mem_false in Hmem. rewrite bool_decide_eq_false_2 by exact Hmem.
      rewrite IH. cbn [mapping lists].
      rewrite assign_fresh by exact Hmem.
      rewrite fresh_entries_cons. cbn [fmap list_fmap].
      unfold PyDict.keys. rewrite fmap_app. cbn [fmap list_fmap fst].
      rewrite length_app. cbn [length]. rewrite Nat.add_1_r.
      rewrite <- !app_assoc. reflexivity.
Qed.

Section first_loop.
Variables (persons : list string) (s : store).
Hypothesis Hwf : store_wf s.

Let added := missing persons (PyDict.keys (mapping s)).
Let s1 := add_missing persons s.

Lemma add_missing_mapping :
  mapping s1 = mapping s ++ fresh_entries (length (lists s)) added.
Proof. unfold s1. rewrite add_missing_spec. reflexivity. Qed.

Lemma add_missing_lists :
  lists s1 = lists s ++ ((fun p => [p]) <$> added).
Proof. unfold s1. rewrite add_missing_spec. reflexivity. Qed.

Lemma add_missing_keys :
  PyDict.keys (mapping s1) = PyDict.keys (mapping s) ++ added.
Proof.
  rewrite add_missing_mapping. unfold PyDict.keys. rewrite fmap_app.
  f_equal. apply fresh_entries_keys.
Qed.

Lemma add_missing_covers p : p ∈ persons -> p ∈ PyDict.keys (mapping s1).
Proof.
  intros Hp. rewrite add_missing_keys, elem_of_app.
  destruct (decide (p ∈ PyDict.keys (mapping s))); [left; assumption|].
  right. apply elem_of_missing. auto.
Qed.

Lemma add_missing_wf : store_wf s1.
Proof.
  destruct Hwf as [Hnd Hb]. split.
  - unfold PyDict.wf. rewrite add_missing_keys. apply NoDup_app.
    split; [exact Hnd|]. split; [|apply NoDup_missing].
    intros p Hp Hm. apply elem_of_missing in Hm as [_ Hm]. auto.
  - rewrite add_missing_mapping, add_missing_lists, length_app, length_fmap.
    apply Forall_app. split.
    + eapply Forall_impl; [exact Hb|]. cbn. intros; lia.
    + apply Forall_forall. intros [p l] Hin.
      apply elem_of_fresh_entries in Hin as (i & Hi & ->).
      apply lookup_lt_Some in Hi. cbn. lia.
Qed.

(** An entry of the first loop: the person owns nothing in the old
    dictionary, and the list is new and holds that person only. *)
Lemma add_missing_entry p l :
  (p, l) ∈ mapping s1 ->
  (p, l) ∈ mapping s \/
  (p ∈ persons /\ (p ∉ PyDict.keys (mapping s)) /\
   (length (lists s) <= l)%nat /\ lists s1 !! l = Some [p]).
Proof.
  rewrite add_missing_mapping, elem_of_app.
  intros [Hold|Hnew]; [left; exact Hold|right].
  apply elem_of_fresh_entries in Hnew as (i & Hi & ->).
  assert (Hin : p ∈ added) by (apply list_elem_of_lookup; eauto).
  apply elem_of_missing in Hin as [Hp Hk].
  split_and!; [assumption | assumption | lia |].
  rewrite add_missing_lists, lookup_app_r by lia.
  replace (length (lists s) + i - length (lists s))%nat with i by lia.
  rewrite list_lookup_fmap, Hi. reflexivity.
Qed.

(** Two entries with one new list are one entry. *)
Lemma add_missing_fresh_unshared p q l :
  (p, l) ∈ mapping s1 -> (q, l) ∈ mapping s1 ->
  (length (lists s) <= l)%nat -> p = q.
Proof.
  destruct Hwf as [_ Hb]. rewrite Forall_forall in Hb.
  rewrite add_missing_mapping, !elem_of_app.
  intros [Hp|Hp] [Hq|Hq] Hl.
  - apply Hb in Hp. cbn in Hp. lia.
  - apply Hb in Hp. cbn in Hp. lia.
  - apply Hb in Hq. cbn in Hq. lia.
  - apply elem_of_fresh_entries in Hp as (i & Hi & ->).
    apply elem_of_fresh_entries in Hq as (j & Hj & E).
    assert (i = j) as -> by lia. congruence.
Qed.

Lemma add_missing_old_lists l :
  (l < length (lists s))%nat -> lists s1 !! l = lists s !! l.
Proof. intros Hl. rewrite add_missing_lists. apply lookup_app_l, Hl. Qed.

Lemma add_missing_id :
  (forall p, p ∈ persons -> p ∈ PyDict.keys (mapping s)) -> s1 = s.
Proof.
  intros Hall. unfold s1. rewrite add_missing_spec. cbv zeta.
  assert (missing persons (PyDict.keys (mapping s)) = []) as ->.
  { apply elem_of_nil_inv. intros p [Hp Hk]%elem_of_missing. auto. }
  cbn. rewrite !app_nil_r. destruct s. reflexivity.
Qed.
End first_loop.

(** *** The second loop *)

Lemma lacking_ext items h h' :
  Forall (fun kv : string * loc =>
            kv.1 ∈ default [] (h !! kv.2) <-> kv.1 ∈ default [] (h' !! kv.2))
         items ->
  lacking items h = lacking items h'.
Proof.
  unfold lacking. induction 1 as [|kv items Hkv _ IH]; [reflexivity|].
  rewrite !filter_cons, IH.
  destruct (decide (kv.1 ∉ default [] (h !! kv.2))) as [Hn|Hn];
    destruct (decide (kv.1 ∉ default [] (h' !! kv.2))) as [Hn'|Hn'];
    try reflexivity; exfalso; tauto.
Qed.

Lemma add_self_cons p l items h count people :
  h !! l = Some people ->
  add_self ((p, l) :: items) h count
  = if bool_decide (p ∈ people) then add_self items h count
    else add_self items (<[l := people ++ [p]]> h) (count + 1)%nat.
Proof. intros Hl. cbn [add_self]. rewrite Hl. reflexivity. Qed.

Lemma add_self_spec items h count :
  Forall (fun kv => (kv.2 < length h)%nat) items ->
  exists h' n,
    add_self items h count = Some (h', (count + n)%nat) /\
    length h' = length h /\
    (forall l people, h !! l = Some people ->
       exists ext, h' !! l = Some (people ++ ext) /\
                   forall q, q ∈ ext -> (q, l) ∈ items /\ q ∉ people) /\
    (forall p l, (p, l) ∈ items ->
       exists people, h' !! l = Some people /\ p ∈ people) /\
    (Forall (fun kv => exists people,
               h !! kv.2 = Some people /\ kv.1 ∈ people) items ->
     n = 0%nat /\ h' = h) /\
    (NoDup items.*1 -> n = length (lacking items h)).
Proof.
  revert h count. induction items as [|[p l] items IH]; intros h count Hb.
  - exists h, 0%nat. cbn [add_self]. rewrite Nat.add_0_r.
    split_and!; try reflexivity.
    + intros l people Hl. exists []. rewrite app_nil_r.
      split; [exact Hl | intros q Hq; inversion Hq].
    + intros p l Hin. inversion Hin.
    + auto.
  - apply Forall_cons in Hb as [Hl Hb]. cbn [snd] in Hl.
    destruct (lookup_lt_is_Some_2 h l Hl) as [people0 Hpeople0].
    rewrite (add_self_cons _ _ _ _ _ _ Hpeople0).
    destruct (decide (p ∈ people0)) as [Hself|Hself];
      [rewrite bool_decide_eq_true_2 by exact Hself
      |rewrite bool_decide_eq_false_2 by exact Hself].
    + destruct (IH h count Hb) as (h' & n & Hrun & Hlen & Hext & Hin & Hid & Hn).
      exists h', n. split_and!; try assumption.
      * intros l' people Hl'. destruct (Hext l' people Hl') as (ext & He & Hq).
        exists ext. split; [exact He|]. intros q Hqe.
        destruct (Hq q Hqe). split; [apply elem_of_cons; right|]; assumption.
      * intros q l' Hql. apply elem_of_cons in Hql as [[= -> ->]|Hql].
        -- destruct (Hext l people0 Hpeople0) as (ext & He & _).
           exists (people0 ++ ext). split; [exact He|].
           apply elem_of_app. left. exact Hself.
        -- apply Hin, Hql.
      * intros Hall. apply Forall_cons in Hall as [_ Hall]. apply Hid, Hall.
      * intros Hnd. cbn [fmap list_fmap fst] in Hnd.
        apply NoDup_cons in Hnd as [_ Hnd]. rewrite (Hn Hnd).
        unfold lacking. rewrite filter_cons. cbn [fst snd].
        rewrite Hpeople0. cbn [default].
        rewrite decide_False by tauto. reflexivity.
    + set (h2 := <[l := people0 ++ [p]]> h).
      assert (Hb2 : Forall (fun kv : string * loc => (kv.2 < length h2)%nat)
                      items).
      { unfold h2. rewrite length_insert. exact Hb. }
      destruct (IH h2 (count + 1)%nat Hb2)
        as (h' & n & Hrun & Hlen & Hext & Hin & Hid & Hn).
      exists h', (S n). split_and!.
      * rewrite Hrun. do 2 f_equal. lia.
      * rewrite Hlen. unfold h2. apply length_insert.
      * intros l' people Hl'. destruct (decide (l' = l)) as [->|Hne].
        -- assert (people = people0) as -> by congruence.
           destruct (Hext l (people0 ++ [p])) as (ext & He & Hq).
           { unfold h2. apply list_lookup_insert_eq, Hl. }
           exists ([p] ++ ext). rewrite app_assoc. split; [exact He|].
           intros q Hqe. apply elem_of_app in Hqe as [Hqe|Hqe].
           ++ apply list_elem_of_singleton in Hqe as ->.
              split; [apply elem_of_cons; left; reflexivity | exact Hself].
           ++ destruct (Hq q Hqe) as [H1 H2].
              split; [apply elem_of_cons; right; exact H1|].
              intros Hc. apply H2, elem_of_app. left. exact Hc.
        -- destruct (Hext l' people) as (ext & He & Hq).
           { unfold h2. rewrite list_lookup_insert_ne by congruence.
             exact Hl'. }
           exists ext. split; [exact He|]. intros q Hqe.
           destruct (Hq q Hqe).
           split; [apply elem_of_cons; right|]; assumption.
      * intros q l' Hql. apply elem_of_cons in Hql as [[= -> ->]|Hql].
        -- destruct (Hext l (people0 ++ [p])) as (ext & He & _).
           { unfold h2. apply list_lookup_insert_eq, Hl. }
           eexists. split; [exact He|].
           rewrite !elem_of_app, list_elem_of_singleton. auto.
        -- apply Hin, Hql.
      * intros Hall. apply Forall_cons in Hall as [(people & Hp & Hpin) _].
        cbn [fst snd] in Hp, Hpin. congruence.
      * intros Hnd. cbn [fmap list_fmap fst] in Hnd.
        apply NoDup_cons in Hnd as [Hp Hnd]. rewrite (Hn Hnd).
        unfold lacking at 2. rewrite filter_cons. cbn [fst snd].
        rewrite Hpeople0. cbn [default].
        rewrite decide_True by exact Hself. cbn [length]. f_equal.
        fold (lacking items h). f_equal. apply lacking_ext.
        apply Forall_forall. intros [q l'] Hql. cbn [fst snd].
        assert (q <> p) as Hqp.
        { intros ->. apply Hp. apply list_elem_of_fmap.
          exists (p, l'). split; [reflexivity | exact Hql]. }
        unfold h2. destruct (decide (l' = l)) as [->|Hne].
        -- rewrite list_lookup_insert_eq by exact Hl. rewrite Hpeople0.
           cbn. rewrite elem_of_app, list_elem_of_singleton.
           tauto.
        -- rewrite list_lookup_insert_ne by congruence. tauto.
Qed.

(** *** The final comprehension *)

Lemma clashing_events_total evs people event :
  event ∈ evs ->
  clashing_events evs people event = Some (clash_list evs people event).
Proof.
  intros He. unfold clashing_events, clash_list.
  erewrite mapM_total; [reflexivity|].
  intros c _. cbv beta.
  erewrite mapM_total; [reflexivity|].
  intros t Ht. cbv beta.
  destruct (decide (EventDef.person t = c)); [|reflexivity].
  rewrite (index_position event evs He), (index_position t evs Ht).
  reflexivity.
Qed.

Lemma elem_of_clash_list evs people event k :
  k ∈ clash_list evs people event <->
  exists t, t ∈ evs /\ EventDef.person t ∈ people /\
            position t evs = k /\ k <> position event evs.
Proof.
  unfold clash_list. rewrite list_elem_of_join. split.
  - intros (ks & Hk & Hks).
    apply list_elem_of_fmap in Hks as (c & -> & Hc).
    apply list_elem_of_join in Hk as (ks & Hk & Hks).
    apply list_elem_of_fmap in Hks as (t & -> & Ht).
    destruct (decide (EventDef.person t = c)) as [<-|]; [|inversion Hk].
    destruct (decide (position event evs ≠ position t evs));
      [|inversion Hk].
    apply list_elem_of_singleton in Hk as ->.
    exists t. split_and!; try assumption; try reflexivity. congruence.
  - intros (t & Ht & Hc & <- & Hne).
    eexists. split; [|apply list_elem_of_fmap; eexists; split;
                       [reflexivity | exact Hc]].
    cbv beta. apply list_elem_of_join. eexists.
    split; [|apply list_elem_of_fmap; eexists; split;
              [reflexivity | exact Ht]].
    cbv beta. rewrite decide_True by reflexivity.
    rewrite decide_True by congruence.
    apply list_elem_of_singleton. reflexivity.
Qed.

Lemma elem_of_clash_items evs m h k v :
  (k, v) ∈ clash_items evs m h <->
  exists event l,
    (EventDef.person event, l) ∈ m /\ event ∈ evs /\
    k = position event evs /\
    v = clash_list evs (default [] (h !! l)) event.
Proof.
  unfold clash_items. rewrite list_elem_of_join. split.
  - intros (kvs & Hkv & Hkvs).
    apply list_elem_of_fmap in Hkvs as ([p l] & -> & Hpl).
    apply list_elem_of_fmap in Hkv as (event & [= -> ->] & He).
    apply list_elem_of_filter in He as [Hp He]. cbn [fst] in Hp. subst p.
    exists event, l. cbn [snd]. auto.
  - intros (event & l & Hpl & He & -> & ->).
    eexists. split; [|apply list_elem_of_fmap; eexists; split;
                       [reflexivity | exact Hpl]].
    cbv beta. apply list_elem_of_fmap. exists event.
    split; [reflexivity|]. apply list_elem_of_filter. auto.
Qed.

(** [clashes] returns, and what it returns. *)
Lemma clashes_run evs s :
  store_wf s ->
  let s1 := add_missing (EventDef.person <$> evs) s in
  exists h n,
    add_self (mapping s1) (lists s1) 0 = Some (h, n) /\
    length h = length (lists s1) /\
    clashes evs s
    = Some (PyDict.of_items (clash_items evs (mapping s1) h), n,
            Store (mapping s1) h).
Proof.
  intros Hwf s1.
  pose proof (add_missing_wf (EventDef.person <$> evs) s Hwf) as [Hnd Hb].
  fold s1 in Hnd, Hb.
  destruct (add_self_spec (mapping s1) (lists s1) 0 Hb)
    as (h & n & Hrun & Hlen & _).
  rewrite Nat.add_0_l in Hrun.
  exists h, n. split; [exact Hrun|]. split; [exact Hlen|].
  unfold clashes. fold s1. rewrite Hrun. cbn [mbind option_bind].
  erewrite (mapM_total _
    (fun kv : string * nat =>
       (fun event =>
          (position event evs,
           clash_list evs (default [] (h !! kv.2)) event))
       <$> filter (fun event => EventDef.person event = kv.1) evs)).
  - reflexivity.
  - intros [p l] Hpl. cbn [fst snd].
    rewrite Forall_forall in Hb. specialize (Hb _ Hpl). cbn [snd] in Hb.
    rewrite <- Hlen in Hb.
    destruct (lookup_lt_is_Some_2 h l Hb) as [people ->].
    cbn [mbind option_bind default from_option id].
    apply mapM_total. intros event He.
    apply list_elem_of_filter in He as [_ He].
    rewrite (index_position event evs He). cbn [mbind option_bind].
    rewrite (clashing_events_total evs people event He). reflexivity.
Qed.

(** *** The whole call *)

Lemma lacking_add_missing persons s :
  store_wf s ->
  let s1 := add_missing persons s in
  lacking (mapping s1) (lists s1) = lacking (mapping s) (lists s).
Proof.
  intros Hwf s1. pose proof Hwf as [_ Hb].
  unfold s1. rewrite add_missing_mapping.
  unfold lacking at 1. rewrite filter_app. fold (lacking (mapping s)
    (lists (add_missing persons s))).
  rewrite (lacking_ext (mapping s) _ (lists s)).
  - rewrite <- (app_nil_r (lacking (mapping s) (lists s))) at 2. f_equal.
    apply elem_of_nil_inv. intros [p l] Hin.
    apply list_elem_of_filter in Hin as [Hlack Hin]. cbn [fst snd] in Hlack.
    destruct (add_missing_entry persons s p l) as [Hold|(_ & _ & _ & Hl)].
    { rewrite add_missing_mapping, elem_of_app. right. exact Hin. }
    + apply elem_of_fresh_entries in Hin as (i & _ & ->).
      rewrite Forall_forall in Hb. specialize (Hb _ Hold). cbn in Hb. lia.
    + rewrite Hl in Hlack. apply Hlack. cbn.
      apply list_elem_of_singleton. reflexivity.
  - eapply Forall_impl; [exact Hb|]. intros [p l] Hl. cbn [fst snd] in *.
    rewrite add_missing_old_lists by exact Hl. tauto.
Qed.

(** Everything the theorems below use about a call of [clashes]. *)
Lemma clashes_spec evs s :
  store_wf s ->
  exists out count s',
    clashes evs s = Some (out, count, s') /\
    let s1 := add_missing (EventDef.person <$> evs) s in
    mapping s' = mapping s1 /\
    out = PyDict.of_items (clash_items evs (mapping s1) (lists s')) /\
    count = length (lacking (mapping s) (lists s)) /\
    (forall l people, lists s1 !! l = Some people ->
       exists ext, lists s' !! l = Some (people ++ ext) /\
         forall q, q ∈ ext -> (q, l) ∈ mapping s1 /\ q ∉ people) /\
    (forall p l, (p, l) ∈ mapping s1 ->
       exists people, lists s' !! l = Some people /\ p ∈ people) /\
    (Forall (fun kv => exists people,
               lists s1 !! kv.2 = Some people /\ kv.1 ∈ people)
            (mapping s1) ->
     lists s' = lists s1).
Proof.
  intros Hwf.
  destruct (clashes_run evs s Hwf) as (h & n & Hrun & Hlen & Hclashes).
  pose proof (add_missing_wf (EventDef.person <$> evs) s Hwf) as [Hnd Hb].
  destruct (add_self_spec _ _ 0 Hb)
    as (h' & n' & Hrun' & _ & Hext & Hin & Hid & Hn).
  rewrite Hrun in Hrun'. rewrite Nat.add_0_l in Hrun'.
  injection Hrun' as <- <-.
  eexists _, _, _. split; [exact Hclashes|]. cbv zeta. cbn [mapping lists].
  split_and!; try reflexivity; try assumption.
  - rewrite (Hn Hnd). f_equal. apply lacking_add_missing, Hwf.
  - intros Hall. apply Hid, Hall.
Qed.

Lemma clashes_entry evs m h event l :
  PyDict.wf m -> event ∈ evs -> (EventDef.person event, l) ∈ m ->
  PyDict.get (position event evs) (PyDict.of_items (clash_items evs m h))
  = Some (clash_list evs (default [] (h !! l)) event).
Proof.
  intros Hwf He Hl. apply get_of_items_agree.
  - apply elem_of_clash_items. exists event, l. auto.
  - intros v' Hin.
    apply elem_of_clash_items in Hin as (event' & l' & Hl' & He' & Hpos & ->).
    pose proof (position_lookup event evs He) as H1.
    pose proof (position_lookup event' evs He') as H2.
    rewrite <- Hpos in H2. assert (event' = event) as -> by congruence.
    pose proof (get_NoDup _ _ _ Hwf Hl) as G1.
    pose proof (get_NoDup _ _ _ Hwf Hl') as G2.
    assert (l' = l) as -> by congruence. reflexivity.
Qed.

(** C4.  [clashes] returns, and in the clash definitions as it leaves
    them every person who owns an event has an entry whose list holds
    that person. *)
Theorem clashes_reflexive events_definition s :
  store_wf s ->
  exists out count s',
    clashes events_definition s = Some (out, count, s') /\
    forall event, event ∈ events_definition ->
      exists l clashing_people,
        PyDict.get (EventDef.person event) (mapping s') = Some l /\
        lists s' !! l = Some clashing_people /\
        EventDef.person event ∈ clashing_people.
Proof.
  intros Hwf.
  destruct (clashes_spec events_definition s Hwf)
    as (out & count & s' & Hrun & Hspec).
  cbv zeta in Hspec. destruct Hspec as (Hm & _ & _ & _ & Hin & _).
  exists out, count, s'. split; [exact Hrun|]. intros event He.
  assert (Hk : EventDef.person event ∈ PyDict.keys (mapping s')).
  { rewrite Hm. apply add_missing_covers.
    apply list_elem_of_fmap. exists event. auto. }
  apply get_is_Some in Hk as [l Hl]. exists l.
  destruct (Hin (EventDef.person event) l) as (people & Hp & Hself).
  { rewrite <- Hm. apply get_Some_elem, Hl. }
  exists people. auto.
Qed.

Lemma clashes_reflexive_only_bob :
  store_wf only_bob /\
  exists out count s',
    clashes [keynote_bob; tutorial_carol] only_bob = Some (out, count, s') /\
    forall event, event ∈ [keynote_bob; tutorial_carol] ->
      exists l clashing_people,
        PyDict.get (EventDef.person event) (mapping s') = Some l /\
        lists s' !! l = Some clashing_people /\
        EventDef.person event ∈ clashing_people.
Proof.
  assert (H : store_wf only_bob).
  { split; [repeat constructor; intros H; inversion H|].
    repeat constructor. }
  split; [exact H|].
  exact (clashes_reflexive [keynote_bob; tutorial_carol] only_bob H).
Defined.

Lemma store_wf_no_clashes : store_wf no_clashes.
Proof. split; constructor. Qed.

Lemma store_wf_only_bob : store_wf only_bob.
Proof.
  split; [repeat constructor; intros H; inversion H | repeat constructor].
Qed.

Lemma store_wf_bob_names_carol : store_wf bob_names_carol.
Proof.
  split; [|repeat constructor].
  repeat constructor.
  - intros H. apply list_elem_of_singleton in H. discriminate.
  - intros H. inversion H.
Qed.

(** C1 as stated fails.  Dave owns an event and the clash definitions
    do not mention him: the entry [dave -> [dave]] is added, and the
    count returned is 0, not 1. *)
Lemma clashes_count_skips_added_person :
  PyDict.get "dave"%string (mapping no_clashes) = None /\
  clashes [panel_dave] no_clashes
  = Some ([(0%nat, [])], 0%nat,
          Store [("dave"%string, 0%nat)] [["dave"%string]]) /\
  ~ exists out s', clashes [panel_dave] no_clashes = Some (out, 1%nat, s').
Proof.
  split_and!; [vm_compute; reflexivity ..|].
  intros (out & s' & H). vm_compute in H. discriminate.
Qed.

(** C1, as the code has it.  A person who owns an event and has no
    entry in the clash definitions gets one, with a new list that holds
    that person only; the count does not move for it.  The count
    returned is the number of entries that the definitions already had
    and whose list lacked its own person. *)
Theorem clashes_count events_definition s :
  store_wf s ->
  exists out count s',
    clashes events_definition s = Some (out, count, s') /\
    count = length (lacking (mapping s) (lists s)) /\
    forall event, event ∈ events_definition ->
      EventDef.person event ∉ PyDict.keys (mapping s) ->
      exists l,
        PyDict.get (EventDef.person event) (mapping s') = Some l /\
        lists s !! l = None /\
        lists s' !! l = Some [EventDef.person event].
Proof.
  intros Hwf.
  destruct (clashes_spec events_definition s Hwf)
    as (out & count & s' & Hrun & Hspec).
  cbv zeta in Hspec. destruct Hspec as (Hm & _ & Hcount & Hext & _ & _).
  exists out, count, s'. split; [exact Hrun|]. split; [exact Hcount|].
  intros event He Hnew.
  set (persons := EventDef.person <$> events_definition) in *.
  assert (Hk : EventDef.person event ∈ PyDict.keys (mapping s')).
  { rewrite Hm. apply add_missing_covers.
    apply list_elem_of_fmap. exists event. auto. }
  apply get_is_Some in Hk as [l Hl]. exists l. split; [exact Hl|].
  apply get_Some_elem in Hl. rewrite Hm in Hl.
  destruct (add_missing_entry persons s _ l Hl)
    as [Hold|(_ & _ & Hfresh & Hlist)].
  { exfalso. apply Hnew. apply list_elem_of_fmap.
    exists (EventDef.person event, l). auto. }
  split; [apply lookup_ge_None_2; exact Hfresh|].
  destruct (Hext l _ Hlist) as (ext & Hfinal & Hq).
  assert (ext = []) as ->; [|exact Hfinal].
  apply elem_of_nil_inv. intros q Hin. destruct (Hq q Hin) as [Hql Hne].
  apply Hne. apply list_elem_of_singleton. symmetry.
  exact (add_missing_fresh_unshared persons s Hwf _ _ l Hl Hql Hfresh).
Qed.

Lemma clashes_count_only_bob :
  store_wf only_bob /\
  exists out count s',
    clashes [keynote_bob; tutorial_carol] only_bob = Some (out, count, s') /\
    count = length (lacking (mapping only_bob) (lists only_bob)) /\
    forall event, event ∈ [keynote_bob; tutorial_carol] ->
      EventDef.person event ∉ PyDict.keys (mapping only_bob) ->
      exists l,
        PyDict.get (EventDef.person event) (mapping s') = Some l /\
        lists only_bob !! l = None /\
        lists s' !! l = Some [EventDef.person event].
Proof.
  split; [exact store_wf_only_bob|].
  exact (clashes_count [keynote_bob; tutorial_carol] only_bob
           store_wf_only_bob).
Defined.

(** C9 as stated fails.  The call adds a key to the caller's
    dictionary and appends to the caller's list: with
    [{"bob": ["carol"]}] and events of bob and carol the definitions
    are left as [{"bob": ["carol", "bob"], "carol": ["carol"]}]. *)
Lemma clashes_changes_the_definitions :
  exists out count s',
    clashes [keynote_bob; tutorial_carol] only_bob = Some (out, count, s') /\
    s' = Store [("bob"%string, 0%nat); ("carol"%string, 1%nat)]
               [["carol"; "bob"]; ["carol"]]%string /\
    s' <> only_bob.
Proof.
  eexists _, _, _. split; [vm_compute; reflexivity|].
  split; [reflexivity | discriminate].
Qed.

(** C9, as the code has it.  [clashes] works on the caller's mapping
    itself: on return that mapping is the completed relation.  Entries
    and list items that were there stay where they were, keys are only
    added and lists only extended; the mapping is unchanged exactly when
    it was complete already. *)
Theorem clashes_updates_in_place events_definition s :
  store_wf s ->
  exists out count s',
    clashes events_definition s = Some (out, count, s') /\
    normalized events_definition s' /\
    (s' = s <-> normalized events_definition s) /\
    (forall p l, PyDict.get p (mapping s) = Some l ->
                 PyDict.get p (mapping s') = Some l) /\
    (forall l people, lists s !! l = Some people ->
       exists ext, lists s' !! l = Some (people ++ ext)).
Proof.
  intros Hwf.
  destruct (clashes_spec events_definition s Hwf)
    as (out & count & s' & Hrun & Hspec).
  cbv zeta in Hspec. destruct Hspec as (Hm & _ & _ & Hext & Hin & Hid).
  set (persons := EventDef.person <$> events_definition) in *.
  exists out, count, s'. split; [exact Hrun|].
  assert (Hnorm : normalized events_definition s').
  { split.
    - intros event He. rewrite Hm. apply add_missing_covers.
      apply list_elem_of_fmap. exists event. auto.
    - apply Forall_forall. intros [p l] Hpl. cbn [fst snd].
      apply Hin. rewrite <- Hm. exact Hpl. }
  split; [exact Hnorm|]. split_and!.
  - split; [intros <-; exact Hnorm|].
    intros [Hkeys Hself].
    assert (Hs1 : add_missing persons s = s).
    { apply add_missing_id; [exact Hwf|]. intros p Hp.
      apply list_elem_of_fmap in Hp as (event & -> & He). auto. }
    rewrite Hs1 in Hm, Hid. specialize (Hid Hself).
    destruct s', s. cbn in Hm, Hid. congruence.
  - intros p l Hp. rewrite Hm.
    pose proof (add_missing_wf persons s Hwf) as [Hnd _].
    apply get_NoDup; [exact Hnd|].
    rewrite add_missing_mapping, elem_of_app. left.
    apply get_Some_elem, Hp.
  - intros l people Hl.
    destruct (Hext l people) as (ext & Hfinal & _); [|eauto].
    rewrite add_missing_old_lists; [exact Hl|].
    apply lookup_lt_Some in Hl. exact Hl.
Qed.

Lemma clashes_updates_in_place_only_bob :
  store_wf only_bob /\
  exists out count s',
    clashes [keynote_bob; tutorial_carol] only_bob = Some (out, count, s') /\
    normalized [keynote_bob; tutorial_carol] s' /\
    (s' = only_bob <-> normalized [keynote_bob; tutorial_carol] only_bob) /\
    (forall p l, PyDict.get p (mapping only_bob) = Some l ->
                 PyDict.get p (mapping s') = Some l) /\
    (forall l people, lists only_bob !! l = Some people ->
       exists ext, lists s' !! l = Some (people ++ ext)).
Proof.
  split; [exact store_wf_only_bob|].
  exact (clashes_updates_in_place [keynote_bob; tutorial_carol] only_bob
           store_wf_only_bob).
Defined.





(** The keys and the list items of the result are indices that
    [index] reported. *)
Lemma clashes_indices evs s out count s' k clash :
  store_wf s -> clashes evs s = Some (out, count, s') ->
  PyDict.get k out = Some clash ->
  (exists event, event ∈ evs /\ index event evs = Some k) /\
  (forall k', k' ∈ clash -> exists t, t ∈ evs /\ index t evs = Some k').
Proof.
  intros Hwf Hrun Hget.
  destruct (clashes_spec evs s Hwf) as (out' & count' & s'' & Hrun' & Hspec).
  rewrite Hrun in Hrun'. injection Hrun' as <- <- <-.
  cbv zeta in Hspec. destruct Hspec as (_ & -> & _).
  apply get_of_items_elem, elem_of_clash_items in Hget
    as (event & l & _ & He & -> & ->).
  split.
  - exists event. split; [exact He | apply index_position, He].
  - intros k' Hk'. apply elem_of_clash_list in Hk' as (t & Ht & _ & <- & _).
    exists t. split; [exact Ht | apply index_position, Ht].
Qed.

Lemma clashes_has_entry evs s out count s' event :
  store_wf s -> clashes evs s = Some (out, count, s') -> event ∈ evs ->
  is_Some (PyDict.get (position event evs) out).
Proof.
  intros Hwf Hrun He.
  destruct (clashes_spec evs s Hwf) as (out' & count' & s'' & Hrun' & Hspec).
  rewrite Hrun in Hrun'. injection Hrun' as <- <- <-.
  cbv zeta in Hspec. destruct Hspec as (Hm & -> & _).
  set (persons := EventDef.person <$> evs) in *.
  pose proof (add_missing_wf persons s Hwf) as [Hnd _].
  assert (Hk : EventDef.person event ∈ PyDict.keys (mapping s')).
  { rewrite Hm. apply add_missing_covers.
    apply list_elem_of_fmap. exists event. auto. }
  apply get_is_Some in Hk as [l Hl].
  rewrite Hm in Hl. apply get_Some_elem in Hl.
  rewrite (clashes_entry _ _ _ event l Hnd He Hl). eauto.
Qed.

End ClashesFacts.


(** ** Equal event definitions *)

Module DuplicateFacts.
Import Denormalise Conditions ClashesPure Samples PyDictFacts.
Import UnsuitabilityFacts UnavailabilityFacts ClashesFacts.

Lemma well_timed_hall_a : Forall well_timed [hall_a_0900; hall_a_0945].
Proof.
  repeat constructor; (eexists; split; [vm_compute; reflexivity|]);
    vm_compute; eauto.
Qed.

(** C10.  Let the event definitions hold the same value at [i] and at
    [j], with [i < j] and [i] the first position that holds it.  Then
    [index] reports [i] for the value, so both occurrences are filed
    under [i]; [unsuitability] and [clashes] return a dictionary with an
    entry under [i] and none under [j], and no clash list holds [j].
    [unavailability] returns when the start of every slot parses and
    its end is on the calendar, and whatever it returns has no entry
    under [j]; it has one under [i] exactly when the owner has an entry
    in the unavailability definitions, as for any other event. *)
Theorem later_duplicate_is_merged events_definition event i j :
  events_definition !! i = Some event ->
  events_definition !! j = Some event ->
  (i < j)%nat ->
  (forall k, (k < i)%nat -> events_definition !! k <> Some event) ->
  index event events_definition = Some i /\
  (forall types_and_slots,
     exists output,
       unsuitability types_and_slots events_definition = Some output /\
       is_Some (PyDict.get i output) /\ PyDict.get j output = None) /\
  (forall s, store_wf s ->
     exists out count s',
       clashes events_definition s = Some (out, count, s') /\
       is_Some (PyDict.get i out) /\ PyDict.get j out = None /\
       forall k clash, PyDict.get k out = Some clash -> j ∉ clash) /\
  (forall slots unavailability_definition,
     (Forall well_timed slots ->
      is_Some (unavailability events_definition slots
                 unavailability_definition)) /\
     forall output,
       unavailability events_definition slots unavailability_definition
       = Some output ->
       PyDict.get j output = None /\
       (is_Some (PyDict.get i output) ->
        EventDef.person event ∈ PyDict.keys unavailability_definition) /\
       (PyDict.wf unavailability_definition ->
        EventDef.person event ∈ PyDict.keys unavailability_definition ->
        is_Some (PyDict.get i output))).
Proof.
  intros Hi Hj Hlt Hfirst.
  assert (Hidx : index event events_definition = Some i).
  { apply index_Some. split; [exact Hi|].
    intros k y Hk Hy ->. exact (Hfirst k Hk Hy). }
  assert (He : event ∈ events_definition).
  { apply list_elem_of_lookup. eauto. }
  assert (Hpos : position event events_definition = i).
  { unfold position. rewrite Hidx. reflexivity. }
  assert (Hnever : forall x, index x events_definition <> Some j).
  { intros x. exact (index_not_later x event _ i j Hi Hj Hlt). }
  split_and!.
  - exact Hidx.
  - intros tas. eexists. split; [apply unsuitability_items|]. split.
    + rewrite <- Hpos. rewrite unsuitability_entry by exact He. eauto.
    + apply get_None. intros Hk.
      apply unsuitability_keys in Hk as (x & _ & Hx).
      exact (Hnever x Hx).
  - intros s Hwf.
    destruct (clashes_spec events_definition s Hwf)
      as (out & count & s' & Hrun & _).
    exists out, count, s'. split; [exact Hrun|]. split_and!.
    + rewrite <- Hpos. exact (clashes_has_entry _ _ _ _ _ _ Hwf Hrun He).
    + destruct (PyDict.get j out) as [clash|] eqn:Hget; [|reflexivity].
      destruct (clashes_indices _ _ _ _ _ _ _ Hwf Hrun Hget)
        as [(x & _ & Hx) _].
      exfalso. exact (Hnever x Hx).
    + intros k clash Hget Hin.
      destruct (clashes_indices _ _ _ _ _ _ _ Hwf Hrun Hget) as [_ Hitems].
      destruct (Hitems j Hin) as (x & _ & Hx). exact (Hnever x Hx).
  - intros slots ud. split; [apply unavailability_returns|].
    intros output Hrun. split_and!.
    + destruct (PyDict.get j output) as [v|] eqn:Hget; [|reflexivity].
      destruct (unavailability_entry_inv _ _ _ _ _ _ Hrun Hget)
        as (_ & x & _ & _ & Hx & _).
      exfalso. exact (Hnever x Hx).
    + intros [v Hget].
      destruct (unavailability_entry_inv _ _ _ _ _ _ Hrun Hget)
        as (periods & x & Hin & _ & Hx & _).
      apply index_lookup in Hx. assert (x = event) as -> by congruence.
      apply list_elem_of_fmap. exists (EventDef.person event, periods).
      split; [reflexivity | exact Hin].
    + intros Hwf Hk. apply get_is_Some in Hk as [periods Hperiods].
      destruct (unavailability_entry _ _ _ _ _ _ Hwf Hrun He Hperiods)
        as (i' & v & Hi' & Hget & _).
      rewrite Hidx in Hi'. injection Hi' as <-. eauto.
Qed.

(** The keynote of alice at positions 0 and 2; for alice away from
    09:00 to 10:00 and two slots of Hall A, [unavailability] returns one
    entry for the two keynotes, under 0. *)
Lemma later_duplicate_is_merged_keynotes :
  (keynote_twice !! 0%nat = Some keynote_alice /\
   keynote_twice !! 2%nat = Some keynote_alice /\
   (0 < 2)%nat /\
   (forall k, (k < 0)%nat -> keynote_twice !! k <> Some keynote_alice)) /\
  index keynote_alice keynote_twice = Some 0%nat /\
  (forall types_and_slots,
     exists output,
       unsuitability types_and_slots keynote_twice = Some output /\
       is_Some (PyDict.get 0%nat output) /\
       PyDict.get 2%nat output = None) /\
  (forall s, store_wf s ->
     exists out count s',
       clashes keynote_twice s = Some (out, count, s') /\
       is_Some (PyDict.get 0%nat out) /\ PyDict.get 2%nat out = None /\
       forall k clash, PyDict.get k out = Some clash -> 2%nat ∉ clash) /\
  (Forall well_timed [hall_a_0900; hall_a_0945] /\
   PyDict.wf [("alice"%string, [nine_to_ten])] /\
   unavailability keynote_twice [hall_a_0900; hall_a_0945]
     [("alice"%string, [nine_to_ten])]
   = Some [(0%nat, [0%nat])] /\
   is_Some (unavailability keynote_twice [hall_a_0900; hall_a_0945]
              [("alice"%string, [nine_to_ten])]) /\
   PyDict.get 2%nat [(0%nat, [0%nat])] = None /\
   is_Some (PyDict.get 0%nat [(0%nat, [0%nat])])).
Proof.
  assert (H0 : keynote_twice !! 0%nat = Some keynote_alice) by reflexivity.
  assert (H2 : keynote_twice !! 2%nat = Some keynote_alice) by reflexivity.
  assert (Hlt : (0 < 2)%nat) by lia.
  assert (Hf : forall k, (k < 0)%nat ->
                 keynote_twice !! k <> Some keynote_alice)
    by (intros k Hk; lia).
  assert (Hrun : unavailability keynote_twice [hall_a_0900; hall_a_0945]
                   [("alice"%string, [nine_to_ten])]
                 = Some [(0%nat, [0%nat])]) by (vm_compute; reflexivity).
  assert (Hwf : PyDict.wf [("alice"%string, [nine_to_ten])]).
  { repeat constructor. intros H. inversion H. }
  assert (Hk : EventDef.person keynote_alice
               ∈ PyDict.keys [("alice"%string, [nine_to_ten])]).
  { apply elem_of_cons. left. reflexivity. }
  destruct (later_duplicate_is_merged keynote_twice keynote_alice 0 2
              H0 H2 Hlt Hf) as (Hidx & Hunsuit & Hclash & Hunav).
  destruct (Hunav [hall_a_0900; hall_a_0945]
              [("alice"%string, [nine_to_ten])]) as [Hret Hout].
  destruct (Hout _ Hrun) as (Hj & _ & Hi).
  refine (conj (conj H0 (conj H2 (conj Hlt Hf)))
            (conj Hidx (conj Hunsuit (conj Hclash _)))).
  refine (conj well_timed_hall_a (conj Hwf (conj Hrun _))).
  exact (conj (Hret well_timed_hall_a) (conj Hj (Hi Hwf Hk))).
Defined.

(** The merged entries, on the sample: one unavailability entry for the
    two keynotes, under 0. *)
Example unavailability_of_duplicates :
  unavailability keynote_twice
    [hall_a_0900; hall_a_0945] [("alice"%string, [nine_to_ten])]
  = Some [(0%nat, [0%nat])].
Proof. vm_compute. reflexivity. Qed.

End DuplicateFacts.


(** ** More on the builders *)

Module MoreBuilderFacts.
Import PyDatetime PyFormat PyDatetimeFacts PyFormatFacts.
Import Denormalise Conditions Samples BuilderFacts.

Lemma typed_slot_is_Some it : is_Some (typed_slot it) <-> in_calendar it.
Proof.
  destruct it as [[[venue d] session] slot].
  unfold typed_slot, in_calendar, add_seconds, combine_midnight.
  cbn [dt_date hour minute second microsecond].
  replace (0 * 3600 + 0 * 60 + 0 + SlotDef.starts_at slot)
    with (SlotDef.starts_at slot) by lia.
  destruct ((0 <? _) && (_ <=? MAXORDINAL)) eqn:E; cbn [mbind option_bind].
  - apply andb_prop in E as [E1%Z.ltb_lt E2%Z.leb_le].
    split; [intros _; lia | eauto].
  - split; [intros [? ?]; discriminate|].
    intros [H1 H2]. apply andb_false_iff in E as [E%Z.ltb_ge | E%Z.leb_gt];
      lia.
Qed.

(** X1.  [types_and_slots] returns exactly when, for every slot
    specification, midnight of the day plus the offset is a day of the
    calendar; otherwise the sum raises and nothing is returned. *)
Theorem types_and_slots_returns_iff venues :
  is_Some (types_and_slots venues) <->
  Forall in_calendar (slot_iteration venues).
Proof.
  unfold types_and_slots. rewrite mapM_is_Some.
  apply Forall_proper; [|reflexivity].
  intros it. apply typed_slot_is_Some.
Qed.

Lemma mapM_app {A B} (f : A -> option B) l1 l2 :
  mapM f (l1 ++ l2)
  = k1 ← mapM f l1; k2 ← mapM f l2; Some (k1 ++ k2).
Proof.
  induction l1 as [|x l1 IH]; cbn [app mapM].
  - cbn. destruct (mapM f l2); reflexivity.
  - cbn. destruct (f x); cbn; [|reflexivity]. rewrite IH.
    destruct (mapM f l1); cbn; [|reflexivity].
    destruct (mapM f l2); reflexivity.
Qed.

(** X2.  [types_and_slots] works venue by venue: for two runs of
    venues one after the other it returns the pairs of the first
    followed by the pairs of the second, and raises when either does. *)
Theorem types_and_slots_app venues1 venues2 :
  types_and_slots (venues1 ++ venues2)
  = l1 ← types_and_slots venues1;
    l2 ← types_and_slots venues2;
    Some (l1 ++ l2).
Proof.
  unfold types_and_slots, slot_iteration.
  rewrite bind_app. apply mapM_app.
Qed.

(** *** Timestamps and labels tell days, minutes and sessions apart *)

Lemma digit_char_inj j k :
  0 <= j <= 9 -> 0 <= k <= 9 -> digit_char j = digit_char k -> j = k.
Proof.
  intros Hj Hk E.
  assert (E' : char_digit (digit_char j) = char_digit (digit_char k))
    by (rewrite E; reflexivity).
  rewrite !char_digit_digit_char in E' by assumption. congruence.
Qed.

Lemma pad2_inj m n r r' :
  0 <= m <= 99 -> 0 <= n <= 99 -> pad2 m +:+ r = pad2 n +:+ r' ->
  m = n /\ r = r'.
Proof.
  intros Hm Hn E. rewrite !pad2_cons in E. injection E as E1 E2 E3.
  apply digit_char_inj in E1; [|Z.div_mod_to_equations; lia ..].
  apply digit_char_inj in E2; [|Z.div_mod_to_equations; lia ..].
  split; [Z.div_mod_to_equations; lia | exact E3].
Qed.

Lemma pad4_inj m n r r' :
  0 <= m <= 9999 -> 0 <= n <= 9999 -> pad4 m +:+ r = pad4 n +:+ r' ->
  m = n /\ r = r'.
Proof.
  intros Hm Hn E. rewrite !pad4_split, !append_assoc in E by assumption.
  apply pad2_inj in E as [E1 E]; [|Z.div_mod_to_equations; lia ..].
  apply pad2_inj in E as [E2 E]; [|Z.div_mod_to_equations; lia ..].
  split; [Z.div_mod_to_equations; lia | exact E].
Qed.

Lemma string_cons_inv c (s s' : string) : String c s = String c s' -> s = s'.
Proof. intros [= E]. exact E. Qed.

Lemma isoformat_inj d1 d2 r1 r2 :
  valid_date d1 -> valid_date d2 ->
  isoformat d1 +:+ r1 = isoformat d2 +:+ r2 -> d1 = d2 /\ r1 = r2.
Proof.
  destruct d1 as [y1 m1 a1], d2 as [y2 m2 a2].
  intros (Hy1 & Hm1 & Ha1) (Hy2 & Hm2 & Ha2).
  cbn [year month day] in *. unfold MINYEAR, MAXYEAR in *.
  pose proof (days_in_month_bounds y1 m1 Hm1).
  pose proof (days_in_month_bounds y2 m2 Hm2).
  unfold isoformat. cbn [year month day]. rewrite !append_assoc.
  intros E. apply pad4_inj in E as [-> E]; [|lia ..].
  rewrite ?append_cons, ?append_nil_l in E. apply string_cons_inv in E.
  apply pad2_inj in E as [-> E]; [|lia ..].
  rewrite ?append_cons, ?append_nil_l in E. apply string_cons_inv in E.
  apply pad2_inj in E as [-> E]; [|lia ..].
  split; [reflexivity | exact E].
Qed.

(** X4.  The session label keeps sessions apart: two slot
    specifications on days of the calendar get the same label only when
    they are on the same day and in a session of the same name. *)
Theorem session_label_distinguishes venue1 d1 session1 slot1 ts1
    venue2 d2 session2 slot2 ts2 :
  valid_date d1 -> valid_date d2 ->
  typed_slot (venue1, d1, session1, slot1) = Some ts1 ->
  typed_slot (venue2, d2, session2, slot2) = Some ts2 ->
  Slot.session (TypedSlot.slot ts1) = Slot.session (TypedSlot.slot ts2) ->
  d1 = d2 /\ session1 = session2.
Proof.
  intros Hv1 Hv2 H1 H2.
  apply typed_slot_inv in H1 as (t1 & _ & ->).
  apply typed_slot_inv in H2 as (t2 & _ & ->).
  cbn [TypedSlot.slot Slot.session]. unfold Described.session_label.
  intros E. apply isoformat_inj in E as [-> E]; [|assumption ..].
  rewrite ?append_cons, ?append_nil_l in E. apply string_cons_inv in E.
  split; [reflexivity | exact E].
Qed.

Lemma session_label_distinguishes_two_halls :
  let it1 := ("Hall A"%string, oct26, "AM"%string,
              SlotDef.Make "talk" 32400 30 100) in
  let it2 := ("Hall B"%string, oct26, "AM"%string,
              SlotDef.Make "workshop" 36000 60 20) in
  let ts1 := TypedSlot.Make "talk" hall_a_0900 in
  let ts2 := TypedSlot.Make "workshop"
               (Slot.Make "Hall B" "26-Oct-2017 10:00" 60
                          "2017-10-26 AM" 20) in
  valid_date oct26 /\
  typed_slot it1 = Some ts1 /\ typed_slot it2 = Some ts2 /\
  Slot.session (TypedSlot.slot ts1) = Slot.session (TypedSlot.slot ts2) /\
  (oct26 = oct26 /\ "AM"%string = "AM"%string).
Proof.
  intros it1 it2 ts1 ts2.
  assert (Hv : valid_date oct26) by (vm_compute; repeat split; discriminate).
  assert (H1 : typed_slot it1 = Some ts1) by (vm_compute; reflexivity).
  assert (H2 : typed_slot it2 = Some ts2) by (vm_compute; reflexivity).
  assert (E : Slot.session (TypedSlot.slot ts1)
              = Slot.session (TypedSlot.slot ts2)) by reflexivity.
  refine (conj Hv (conj H1 (conj H2 (conj E _)))).
  exact (session_label_distinguishes _ _ _ _ _ _ _ _ _ _ Hv Hv H1 H2 E).
Defined.

Lemma digit_char_not_blank k : 0 <= k <= 9 -> digit_char k <> " "%char.
Proof.
  intros Hk E. apply (f_equal char_digit) in E.
  rewrite char_digit_digit_char in E by assumption. discriminate.
Qed.

Lemma month_abbr_inj m n r r' :
  1 <= m <= 12 -> 1 <= n <= 12 ->
  month_abbr m +:+ r = month_abbr n +:+ r' -> m = n /\ r = r'.
Proof.
  intros Hm Hn E. apply (f_equal re_b) in E.
  rewrite !re_b_month_abbr in E by assumption.
  injection E as -> ->. split; reflexivity.
Qed.

(** The digits of a year, one case for each number of digits. *)
Lemma year_digits_shape y r :
  0 <= y <= 9999 ->
  (y < 10 /\ year_digits y +:+ r = String (digit_char y) r) \/
  (10 <= y < 100 /\
   year_digits y +:+ r
   = String (digit_char (y / 10)) (String (digit_char (y mod 10)) r)) \/
  (100 <= y < 1000 /\
   year_digits y +:+ r
   = String (digit_char (y / 100))
       (String (digit_char (y mod 100 / 10))
          (String (digit_char ((y mod 100) mod 10)) r))) \/
  (1000 <= y /\
   year_digits y +:+ r
   = String (digit_char (y / 1000))
       (String (digit_char ((y / 100) mod 10))
          (String (digit_char (y mod 100 / 10))
             (String (digit_char ((y mod 100) mod 10)) r)))).
Proof.
  intros Hy. unfold year_digits.
  destruct (Z.ltb_spec y 10); [left; split; [lia | reflexivity]|].
  destruct (Z.ltb_spec y 100); [right; left; split; [lia | reflexivity]|].
  destruct (Z.ltb_spec y 1000);
    [right; right; left | right; right; right]; (split; [lia | reflexivity]).
Qed.

Ltac digits_differ :=
  match goal with
  | H : digit_char ?k = " "%char |- _ =>
      exfalso; apply (digit_char_not_blank k);
      [Z.div_mod_to_equations; lia | exact H]
  | H : " "%char = digit_char ?k |- _ =>
      exfalso; apply (digit_char_not_blank k);
      [Z.div_mod_to_equations; lia | symmetry; exact H]
  end.

Ltac digits_agree :=
  repeat match goal with
         | H : digit_char _ = digit_char _ |- _ =>
             apply digit_char_inj in H; [|Z.div_mod_to_equations; lia ..]
         end.

(** The year ends at the blank: years of different lengths give
    different strings. *)
Lemma year_digits_inj y1 y2 r1 r2 :
  0 <= y1 <= 9999 -> 0 <= y2 <= 9999 ->
  year_digits y1 +:+ String " " r1 = year_digits y2 +:+ String " " r2 ->
  y1 = y2 /\ r1 = r2.
Proof.
  intros H1 H2 E.
  destruct (year_digits_shape y1 (String " " r1) H1)
    as [[B1 E1]|[[B1 E1]|[[B1 E1]|[B1 E1]]]];
  destruct (year_digits_shape y2 (String " " r2) H2)
    as [[B2 E2]|[[B2 E2]|[[B2 E2]|[B2 E2]]]];
  rewrite E1, E2 in E; clear E1 E2; injection E; intros;
  try digits_differ; digits_agree;
  (split; [Z.div_mod_to_equations; lia | assumption]).
Qed.

(** [strftime] keeps the date, the hour and the minute apart. *)
Lemma strftime_inj t1 t2 :
  valid_datetime t1 -> valid_datetime t2 -> strftime t1 = strftime t2 ->
  dt_date t1 = dt_date t2 /\ hour t1 = hour t2 /\ minute t1 = minute t2.
Proof.
  destruct t1 as [[y1 m1 d1] H1 M1 S1 u1], t2 as [[y2 m2 d2] H2 M2 S2 u2].
  unfold valid_datetime.
  cbn [dt_date year month day hour minute second microsecond].
  intros ((Hy1 & Hm1 & Hd1) & HH1 & HM1 & _) ((Hy2 & Hm2 & Hd2) & HH2 & HM2 & _).
  cbn [year month day] in *. unfold MINYEAR, MAXYEAR in *.
  pose proof (days_in_month_bounds y1 m1 Hm1).
  pose proof (days_in_month_bounds y2 m2 Hm2).
  unfold strftime.
  cbn [dt_date year month day hour minute second microsecond].
  intros E. apply pad2_inj in E as [-> E]; [|lia ..].
  rewrite ?append_cons, ?append_nil_l in E. apply string_cons_inv in E.
  apply month_abbr_inj in E as [-> E]; [|lia ..].
  apply string_cons_inv in E.
  apply year_digits_inj in E as [-> E]; [|lia ..].
  apply pad2_inj in E as [-> E]; [|lia ..].
  apply string_cons_inv in E.
  rewrite <- (append_nil_r (pad2 M1)), <- (append_nil_r (pad2 M2)) in E.
  apply pad2_inj in E as [-> _]; [|lia ..].
  split_and!; reflexivity.
Qed.

(** X3.  The timestamp keeps days and minutes apart and nothing finer:
    two slot specifications with a day of the calendar and an offset
    inside the day get the same timestamp exactly when they are on the
    same day and start in the same minute. *)
Theorem timestamp_distinguishes it1 it2 ts1 ts2 :
  Described.within_day it1 -> Described.within_day it2 ->
  typed_slot it1 = Some ts1 -> typed_slot it2 = Some ts2 ->
  Slot.starts_at (TypedSlot.slot ts1) = Slot.starts_at (TypedSlot.slot ts2)
  <->
  it1.1.1.2 = it2.1.1.2 /\
  SlotDef.starts_at it1.2 / 60 = SlotDef.starts_at it2.2 / 60.
Proof.
  destruct it1 as [[[venue1 d1] session1] slot1].
  destruct it2 as [[[venue2 d2] session2] slot2].
  intros [Hv1 Hs1] [Hv2 Hs2] H1 H2. cbn [fst snd].
  apply typed_slot_inv in H1 as (t1 & Ht1 & ->).
  apply typed_slot_inv in H2 as (t2 & Ht2 & ->).
  rewrite add_seconds_midnight in Ht1, Ht2 by assumption.
  injection Ht1 as <-. injection Ht2 as <-.
  cbn [TypedSlot.slot Slot.starts_at].
  set (s1 := SlotDef.starts_at slot1) in *.
  set (s2 := SlotDef.starts_at slot2) in *.
  split.
  - intros E. apply strftime_inj in E as (E & Eh & Em);
      [|apply add_seconds_midnight_valid; assumption ..].
    cbn [dt_date hour minute] in E, Eh, Em.
    split; [exact E|]. Z.div_mod_to_equations. lia.
  - intros [-> E]. unfold strftime. cbn [dt_date hour minute].
    replace (s2 / 3600) with (s1 / 3600)
      by (Z.div_mod_to_equations; lia).
    replace (s2 mod 3600 / 60) with (s1 mod 3600 / 60)
      by (Z.div_mod_to_equations; lia).
    reflexivity.
Qed.

Lemma timestamp_distinguishes_two_halls :
  let it1 := ("Hall A"%string, oct26, "AM"%string,
              SlotDef.Make "talk" 32400 30 100) in
  let it2 := ("Hall B"%string, oct26, "AM"%string,
              SlotDef.Make "workshop" 32430 60 20) in
  let ts1 := TypedSlot.Make "talk" hall_a_0900 in
  let ts2 := TypedSlot.Make "workshop"
               (Slot.Make "Hall B" "26-Oct-2017 09:00" 60
                          "2017-10-26 AM" 20) in
  Described.within_day it1 /\ Described.within_day it2 /\
  typed_slot it1 = Some ts1 /\ typed_slot it2 = Some ts2 /\
  (Slot.starts_at (TypedSlot.slot ts1)
   = Slot.starts_at (TypedSlot.slot ts2) <->
   oct26 = oct26 /\ 32400 / 60 = 32430 / 60).
Proof.
  intros it1 it2 ts1 ts2.
  assert (Hw1 : Described.within_day it1)
    by (vm_compute; repeat split; discriminate).
  assert (Hw2 : Described.within_day it2)
    by (vm_compute; repeat split; discriminate).
  assert (H1 : typed_slot it1 = Some ts1) by (vm_compute; reflexivity).
  assert (H2 : typed_slot it2 = Some ts2) by (vm_compute; reflexivity).
  refine (conj Hw1 (conj Hw2 (conj H1 (conj H2 _)))).
  exact (timestamp_distinguishes it1 it2 ts1 ts2 Hw1 Hw2 H1 H2).
Defined.

(** *** [to_datetime] *)

Lemma char_digit_range c d : char_digit c = Some d -> 0 <= d <= 9.
Proof.
  unfold char_digit.
  destruct ((48 <=? _) && (_ <=? 57)) eqn:E; [|discriminate].
  apply andb_prop in E as [E1%Z.leb_le E2%Z.leb_le]. intros [= <-]. lia.
Qed.

Lemma two_digits_range hi lo s v r :
  two_digits hi lo s = Some (v, r) -> lo <= v <= hi.
Proof.
  unfold two_digits. destruct s as [|c1 [|c2 s]]; try discriminate.
  destruct (char_digit c1); cbn [mbind option_bind]; [|discriminate].
  destruct (char_digit c2); cbn [mbind option_bind]; [|discriminate].
  destruct ((lo <=? _) && (_ <=? hi)) eqn:E; [|discriminate].
  apply andb_prop in E as [E1%Z.leb_le E2%Z.leb_le]. intros [= <- _]. lia.
Qed.

Lemma one_digit_range lo s v r :
  one_digit lo s = Some (v, r) -> lo <= v <= 9.
Proof.
  unfold one_digit. destruct s as [|c s]; [discriminate|].
  destruct (char_digit c) as [d|] eqn:Hd; cbn [mbind option_bind];
    [|discriminate].
  apply char_digit_range in Hd.
  destruct (lo <=? d) eqn:E; [|discriminate].
  apply Z.leb_le in E. intros [= <- _]. lia.
Qed.

Lemma orelse_two_one_range hi s v r :
  9 <= hi ->
  orelse (two_digits hi 0) (one_digit 0) s = Some (v, r) -> 0 <= v <= hi.
Proof.
  intros Hhi. unfold orelse.
  destruct (two_digits hi 0 s) as [[v' r']|] eqn:E.
  - intros [= <- <-]. apply two_digits_range in E. exact E.
  - intros E'. apply one_digit_range in E'. lia.
Qed.

(** X5.  [to_datetime] returns only datetimes that exist: a date of the
    calendar, an hour below 24, a minute below 60, no seconds.  Writing
    such a datetime out again as [types_and_slots] does and reading it
    back gives the same datetime when its year is 1000 or later, and
    raises when the year is earlier: [to_datetime] reads [0999] and
    [strftime] writes [999]. *)
Theorem to_datetime_valid datetime_as_string t :
  to_datetime datetime_as_string = Some t ->
  valid_datetime t /\ second t = 0 /\ microsecond t = 0 /\
  to_datetime (strftime t)
  = (if 1000 <=? year (dt_date t) then Some t else None).
Proof.
  unfold to_datetime, strptime. intros H.
  destruct (re_d _) as [[d s1]|]; cbn [mbind option_bind] in H;
    [|discriminate].
  destruct (lit _ s1) as [s2|]; cbn [mbind option_bind] in H;
    [|discriminate].
  destruct (re_b s2) as [[m s3]|]; cbn [mbind option_bind] in H;
    [|discriminate].
  destruct (lit _ s3) as [s4|]; cbn [mbind option_bind] in H;
    [|discriminate].
  destruct (re_Y s4) as [[y s5]|]; cbn [mbind option_bind] in H;
    [|discriminate].
  destruct (re_spaces s5) as [s6|]; cbn [mbind option_bind] in H;
    [|discriminate].
  destruct (re_H s6) as [[hh s7]|] eqn:HH; cbn [mbind option_bind] in H;
    [|discriminate].
  destruct (lit _ s7) as [s8|]; cbn [mbind option_bind] in H;
    [|discriminate].
  destruct (re_M s8) as [[mm s9]|] eqn:HM; cbn [mbind option_bind] in H;
    [|discriminate].
  destruct s9; [|discriminate].
  destruct (valid_dateb (Date y m d)) eqn:Hv; [|discriminate].
  injection H as <-.
  apply valid_dateb_spec in Hv.
  apply orelse_two_one_range in HH; [|lia].
  apply orelse_two_one_range in HM; [|lia].
  assert (Hvalid : valid_datetime (Datetime (Date y m d) hh mm 0 0)).
  { unfold valid_datetime.
    cbn [dt_date hour minute second microsecond]. split_and!; try lia.
    exact Hv. }
  split; [exact Hvalid|]. split; [reflexivity|]. split; [reflexivity|].
  fold (strptime (strftime (Datetime (Date y m d) hh mm 0 0))).
  cbn [dt_date year]. destruct (Z.leb_spec 1000 y) as [Hy|Hy].
  - rewrite strptime_strftime by assumption. reflexivity.
  - apply strptime_strftime_short_year; assumption.
Qed.

Lemma to_datetime_valid_0900 :
  to_datetime "26-Oct-2017 09:00"
  = Some (Datetime oct26 9 0 0 0) /\
  valid_datetime (Datetime oct26 9 0 0 0) /\
  to_datetime (strftime (Datetime oct26 9 0 0 0))
  = Some (Datetime oct26 9 0 0 0).
Proof.
  assert (H : to_datetime "26-Oct-2017 09:00" = Some (Datetime oct26 9 0 0 0))
    by (vm_compute; reflexivity).
  destruct (to_datetime_valid _ _ H) as (Hv & _ & _ & Hrt).
  split; [exact H|]. split; [exact Hv | exact Hrt].
Defined.

(** The other case, on the first day of the year 999. *)
Example to_datetime_of_year_999 :
  to_datetime "01-Jan-0999 09:00" = Some (Datetime jan1_999 9 0 0 0) /\
  strftime (Datetime jan1_999 9 0 0 0) = "01-Jan-999 09:00"%string /\
  to_datetime "01-Jan-999 09:00" = None.
Proof. split_and!; vm_compute; reflexivity. Qed.

End MoreBuilderFacts.


(** ** More on [unavailability] *)

Module MoreUnavailabilityFacts.
Import PyDatetime PyFormat Denormalise Conditions Samples PyDictFacts.
Import UnavailabilityFacts.

Lemma slot_in_period_None period slot :
  slot_in_period period slot = None <-> slot_raises period slot.
Proof.
  unfold slot_in_period, slot_raises.
  destruct (to_datetime (Slot.starts_at slot)) as [start|];
    cbn [mbind option_bind].
  - destruct (le (Period.unavailable_from period) start) eqn:Hfrom.
    + cbn [mbind option_bind].
      destruct (add_seconds start (Slot.duration slot * 60))
        as [finish|] eqn:Hfinish; cbn [mbind option_bind].
      * split; [discriminate|].
        intros [?|(start' & ? & _ & ?)]; congruence.
      * split; [|reflexivity]. intros _. right. exists start. auto.
    + split; [discriminate|].
      intros [?|(start' & ? & ? & _)]; congruence.
  - split; [auto | reflexivity].
Qed.

Lemma unavailable_slots_None periods slots :
  unavailable_slots periods slots = None <->
  exists period slot,
    period ∈ periods /\ slot ∈ slots /\ slot_raises period slot.
Proof.
  unfold unavailable_slots.
  rewrite fmap_None, mapM_None, Exists_exists. split.
  - intros (period & Hp & H). rewrite fmap_None, mapM_None, Exists_exists in H.
    destruct H as (slot & Hs & H). exists period, slot.
    split; [exact Hp|]. split; [exact Hs|]. apply slot_in_period_None.
    destruct (slot_in_period period slot) as [[|]|]; [|discriminate|reflexivity].
    cbn [mbind option_bind] in H.
    destruct (index_elem slot slots Hs) as [i Hi]. rewrite Hi in H.
    discriminate.
  - intros (period & slot & Hp & Hs & H). exists period. split; [exact Hp|].
    rewrite fmap_None, mapM_None, Exists_exists. exists slot.
    split; [exact Hs|]. apply slot_in_period_None in H. rewrite H.
    reflexivity.
Qed.

(** X6.  [unavailability] raises exactly when some person of the
    definition owns an event and, for one of that person's periods and
    one of the slots, the start of the slot does not parse, or the period
    starts no later than the slot and the end of the slot is off the
    calendar.  Slots are not read for persons without events or without
    periods. *)
Theorem unavailability_raises_iff events_definition slots
    unavailability_definition :
  unavailability events_definition slots unavailability_definition = None
  <->
  exists periods event period slot,
    (EventDef.person event, periods) ∈ unavailability_definition /\
    event ∈ events_definition /\ period ∈ periods /\ slot ∈ slots /\
    slot_raises period slot.
Proof.
  unfold unavailability. rewrite bind_None. split.
  - intros [H|(items & _ & ?)]; [|discriminate].
    apply mapM_None, Exists_exists in H as ([person periods] & Hp & H).
    apply mapM_None, Exists_exists in H as (event & He & H).
    apply list_elem_of_filter in He as [<- He].
    destruct (index_elem event events_definition He) as [i Hi].
    rewrite Hi in H. cbn [mbind option_bind] in H.
    destruct (unavailable_slots periods slots) eqn:Hu; [discriminate|].
    apply unavailable_slots_None in Hu as (period & slot & ? & ? & ?).
    exists periods, event, period, slot. auto.
  - intros (periods & event & period & slot & Hp & He & Hper & Hs & H).
    left. apply mapM_None, Exists_exists.
    exists (EventDef.person event, periods). split; [exact Hp|].
    apply mapM_None, Exists_exists. exists event. split.
    + apply list_elem_of_filter. auto.
    + destruct (index_elem event events_definition He) as [i ->].
      cbn [mbind option_bind].
      assert (unavailable_slots periods slots = None) as ->; [|reflexivity].
      apply unavailable_slots_None. exists period, slot. auto.
Qed.

(** X7.  Whatever the slots, a returned map is sound: every key is the
    position of an event whose owner has periods, and every index in its
    list is the position of a slot that lies within one of those
    periods. *)
Theorem unavailability_sound events_definition slots
    unavailability_definition output k unavailable :
  unavailability events_definition slots unavailability_definition
  = Some output ->
  PyDict.get k output = Some unavailable ->
  exists event periods,
    events_definition !! k = Some event /\
    (EventDef.person event, periods) ∈ unavailability_definition /\
    forall j, j ∈ unavailable ->
      exists slot period start finish,
        slots !! j = Some slot /\ period ∈ periods /\
        to_datetime (Slot.starts_at slot) = Some start /\
        add_seconds start (Slot.duration slot * 60) = Some finish /\
        le (Period.unavailable_from period) start = true /\
        le finish (Period.unavailable_until period) = true.
Proof.
  intros Hrun Hget.
  destruct (unavailability_entry_inv _ _ _ _ _ _ Hrun Hget)
    as (periods & event & Hp & He & Hidx & Hu).
  exists event, periods. split; [apply index_lookup, Hidx|].
  split; [exact Hp|]. intros j Hj.
  apply (elem_of_unavailable_slots _ _ _ _ Hu) in Hj
    as (period & slot & Hper & Hs & Hin & Hi).
  apply slot_in_period_true in Hin as (start & finish & ? & ? & ? & ?).
  exists slot, period, start, finish.
  split; [apply index_lookup, Hi|]. split_and!; assumption.
Qed.

Lemma unavailability_nine_to_ten_run :
  unavailability [keynote_alice] [hall_a_0900; hall_a_0945]
    [("alice"%string, [nine_to_ten])]
  = Some [(0%nat, [0%nat])].
Proof. vm_compute. reflexivity. Qed.

Lemma unavailability_sound_nine_to_ten :
  unavailability [keynote_alice] [hall_a_0900; hall_a_0945]
    [("alice"%string, [nine_to_ten])]
  = Some [(0%nat, [0%nat])] /\
  PyDict.get 0%nat [(0%nat, [0%nat])] = Some [0%nat] /\
  exists event periods,
    [keynote_alice] !! 0%nat = Some event /\
    (EventDef.person event, periods) ∈ [("alice"%string, [nine_to_ten])] /\
    forall j, j ∈ [0%nat] ->
      exists slot period start finish,
        [hall_a_0900; hall_a_0945] !! j = Some slot /\ period ∈ periods /\
        to_datetime (Slot.starts_at slot) = Some start /\
        add_seconds start (Slot.duration slot * 60) = Some finish /\
        le (Period.unavailable_from period) start = true /\
        le finish (Period.unavailable_until period) = true.
Proof.
  split; [exact unavailability_nine_to_ten_run|]. split; [reflexivity|].
  exact (unavailability_sound _ _ _ _ 0%nat [0%nat]
           unavailability_nine_to_ten_run eq_refl).
Defined.

(** X8.  When no two slots are equal, the entry of an event whose owner
    has periods lists exactly the positions of the slots that start no
    earlier than one of the periods and end no later than it, the bounds
    included; an event whose owner is no key of the definition has no
    entry. *)
Theorem unavailability_exact_for_distinct_slots events_definition slots
    unavailability_definition output :
  PyDict.wf unavailability_definition -> NoDup slots ->
  unavailability events_definition slots unavailability_definition
  = Some output ->
  (forall event periods,
     event ∈ events_definition ->
     PyDict.get (EventDef.person event) unavailability_definition
     = Some periods ->
     exists i unavailable,
       index event events_definition = Some i /\
       PyDict.get i output = Some unavailable /\
       forall j, j ∈ unavailable <->
         exists slot period start finish,
           slots !! j = Some slot /\ period ∈ periods /\
           to_datetime (Slot.starts_at slot) = Some start /\
           add_seconds start (Slot.duration slot * 60) = Some finish /\
           le (Period.unavailable_from period) start = true /\
           le finish (Period.unavailable_until period) = true) /\
  (forall i event,
     events_definition !! i = Some event ->
     EventDef.person event ∉ PyDict.keys unavailability_definition ->
     PyDict.get i output = None).
Proof.
  intros Hwf Hnd Hrun.
  destruct (unavailability_distinct_slots _ _ _ _ Hwf Hnd Hrun)
    as [Hentry Habsent].
  split; [|exact Habsent].
  intros event periods He Hp.
  destruct (Hentry event periods He Hp) as (i & v & Hi & Hget & Hiff).
  exists i, v. split; [exact Hi|]. split; [exact Hget|].
  intros j. rewrite Hiff. split.
  - intros (period & slot & Hper & Hj & Hin).
    apply slot_in_period_true in Hin as (start & finish & ? & ? & ? & ?).
    exists slot, period, start, finish. split_and!; assumption.
  - intros (slot & period & start & finish & Hj & Hper & ? & ? & ? & ?).
    exists period, slot. split; [exact Hper|]. split; [exact Hj|].
    apply slot_in_period_true. exists start, finish. auto.
Qed.

Lemma unavailability_exact_nine_to_ten :
  PyDict.wf [("alice"%string, [nine_to_ten])] /\
  NoDup [hall_a_0900; hall_a_0945] /\
  unavailability [keynote_alice] [hall_a_0900; hall_a_0945]
    [("alice"%string, [nine_to_ten])]
  = Some [(0%nat, [0%nat])] /\
  (forall i event,
     [keynote_alice] !! i = Some event ->
     EventDef.person event ∉ PyDict.keys [("alice"%string, [nine_to_ten])] ->
     PyDict.get i [(0%nat, [0%nat])] = None).
Proof.
  assert (Hwf : PyDict.wf [("alice"%string, [nine_to_ten])]).
  { repeat constructor. intros H. inversion H. }
  assert (Hnd : NoDup [hall_a_0900; hall_a_0945]).
  { repeat constructor.
    - intros H. apply list_elem_of_singleton in H. discriminate.
    - intros H. inversion H. }
  refine (conj Hwf (conj Hnd (conj unavailability_nine_to_ten_run _))).
  exact (proj2 (unavailability_exact_for_distinct_slots _ _ _ _ Hwf Hnd
                  unavailability_nine_to_ten_run)).
Defined.

(** X9.  When every person of the definition has an empty list of
    periods, [unavailability] returns without reading a slot, whatever
    their starts look like, and the entry of every event of such a person
    is the empty list: an entry, not a missing key. *)
Theorem unavailability_no_periods events_definition slots
    unavailability_definition :
  PyDict.wf unavailability_definition ->
  Forall (fun kv => kv.2 = []) unavailability_definition ->
  exists output,
    unavailability events_definition slots unavailability_definition
    = Some output /\
    forall event,
      event ∈ events_definition ->
      EventDef.person event ∈ PyDict.keys unavailability_definition ->
      exists i, index event events_definition = Some i /\
                PyDict.get i output = Some [].
Proof.
  intros Hwf Hempty.
  destruct (unavailability events_definition slots
              unavailability_definition) as [output|] eqn:Hrun.
  - exists output. split; [reflexivity|]. intros event He Hk.
    apply get_is_Some in Hk as [periods Hp].
    destruct (unavailability_entry _ _ _ _ _ _ Hwf Hrun He Hp)
      as (i & v & Hi & Hget & Hu).
    rewrite Forall_forall in Hempty.
    pose proof (Hempty _ (get_Some_elem _ _ _ Hp)) as E. cbn in E. subst.
    cbn in Hu. injection Hu as <-. eauto.
  - exfalso. apply unavailability_raises_iff in Hrun
      as (periods & event & period & slot & Hp & _ & Hper & _).
    rewrite Forall_forall in Hempty. specialize (Hempty _ Hp).
    cbn in Hempty. subst. inversion Hper.
Qed.

Lemma unavailability_no_periods_alice :
  let ud : PyDict.t string (list Period.t) := [("alice"%string, [])] in
  PyDict.wf ud /\ Forall (fun kv => kv.2 = []) ud /\
  exists output,
    unavailability [keynote_alice]
      [Slot.Make "Hall A" "not a date" 30 "AM" 100] ud = Some output /\
    forall event,
      event ∈ [keynote_alice] ->
      EventDef.person event ∈ PyDict.keys ud ->
      exists i, index event [keynote_alice] = Some i /\
                PyDict.get i output = Some [].
Proof.
  intros ud.
  assert (Hwf : PyDict.wf ud).
  { repeat constructor. intros H. inversion H. }
  assert (He : Forall (fun kv : string * list Period.t => kv.2 = []) ud)
    by (repeat constructor).
  refine (conj Hwf (conj He _)).
  exact (unavailability_no_periods _ _ ud Hwf He).
Defined.

Lemma mapM_insert {A B} (f : A -> option (list B)) l1 l2 x :
  f x = Some [] ->
  mjoin <$> mapM f (l1 ++ x :: l2) = mjoin <$> mapM f (l1 ++ l2).
Proof.
  intros Hx. induction l1 as [|y l1 IH]; cbn [app mapM].
  - cbn. rewrite Hx. cbn. destruct (mapM f l2); reflexivity.
  - cbn. destruct (f y) as [b|]; cbn; [|reflexivity].
    cbn in IH.
    destruct (mapM f (l1 ++ x :: l2)), (mapM f (l1 ++ l2));
      cbn in *; try discriminate; try reflexivity.
    injection IH as IH. f_equal. f_equal. exact IH.
Qed.

(** X18.  An entry of the definition for a person who owns no event
    changes nothing: with or without it [unavailability] returns the
    same map, or raises all the same. *)
Theorem unavailability_ignores_person_without_events events_definition
    slots ud1 ud2 person periods :
  (forall event, event ∈ events_definition ->
     EventDef.person event <> person) ->
  unavailability events_definition slots (ud1 ++ (person, periods) :: ud2)
  = unavailability events_definition slots (ud1 ++ ud2).
Proof.
  intros Hnone. unfold unavailability.
  set (f := fun '(person, periods) => mapM _ _).
  assert (Hf : f (person, periods) = Some []).
  { unfold f.
    assert (filter (fun event => EventDef.person event = person)
              events_definition = []) as ->; [|reflexivity].
    apply elem_of_nil_inv. intros event [Hp He]%list_elem_of_filter.
    exact (Hnone event He Hp). }
  pose proof (mapM_insert f ud1 ud2 (person, periods) Hf) as E.
  destruct (mapM f (ud1 ++ (person, periods) :: ud2)),
    (mapM f (ud1 ++ ud2)); cbn in E |- *; congruence.
Qed.

Lemma unavailability_ignores_dave :
  (forall event, event ∈ [keynote_alice] ->
     EventDef.person event <> "dave"%string) /\
  unavailability [keynote_alice] [hall_a_0900; hall_a_0945]
    ([("alice"%string, [nine_to_ten])] ++ ("dave"%string, [all_day]) :: [])
  = unavailability [keynote_alice] [hall_a_0900; hall_a_0945]
      ([("alice"%string, [nine_to_ten])] ++ []).
Proof.
  assert (H : forall event, event ∈ [keynote_alice] ->
                EventDef.person event <> "dave"%string).
  { intros event He. apply list_elem_of_singleton in He as ->. discriminate. }
  split; [exact H|].
  exact (unavailability_ignores_person_without_events _ _ _ _ _ _ H).
Defined.

(** X19.  The restriction belongs to the person: two events of one
    owner have the same list of slots in the returned map. *)
Theorem unavailability_same_person events_definition slots
    unavailability_definition output event1 event2 i j unavailable1
    unavailable2 :
  PyDict.wf unavailability_definition ->
  unavailability events_definition slots unavailability_definition
  = Some output ->
  index event1 events_definition = Some i ->
  index event2 events_definition = Some j ->
  EventDef.person event1 = EventDef.person event2 ->
  PyDict.get i output = Some unavailable1 ->
  PyDict.get j output = Some unavailable2 ->
  unavailable1 = unavailable2.
Proof.
  intros Hwf Hrun Hi Hj Hsame Hgi Hgj.
  destruct (unavailability_entry_inv _ _ _ _ _ _ Hrun Hgi)
    as (periods1 & e1 & Hp1 & _ & Hi1 & Hu1).
  destruct (unavailability_entry_inv _ _ _ _ _ _ Hrun Hgj)
    as (periods2 & e2 & Hp2 & _ & Hj2 & Hu2).
  apply index_lookup in Hi, Hj, Hi1, Hj2.
  assert (e1 = event1) as -> by congruence.
  assert (e2 = event2) as -> by congruence.
  rewrite Hsame in Hp1.
  pose proof (get_NoDup _ _ _ Hwf Hp1) as G1.
  pose proof (get_NoDup _ _ _ Hwf Hp2) as G2.
  assert (periods1 = periods2) as -> by congruence. congruence.
Qed.

Lemma unavailability_same_person_alice :
  let evs := [keynote_alice; ev "Panel" "alice" "talk"] in
  let ud : PyDict.t string (list Period.t) :=
    [("alice"%string, [nine_to_ten])] in
  let output := [(0%nat, [0%nat]); (1%nat, [0%nat])] in
  PyDict.wf ud /\
  unavailability evs [hall_a_0900; hall_a_0945] ud = Some output /\
  index keynote_alice evs = Some 0%nat /\
  index (ev "Panel" "alice" "talk") evs = Some 1%nat /\
  PyDict.get 0%nat output = Some [0%nat] /\
  PyDict.get 1%nat output = Some [0%nat] /\
  [0%nat] = [0%nat].
Proof.
  intros evs ud output.
  assert (Hwf : PyDict.wf ud).
  { repeat constructor. intros H. inversion H. }
  assert (Hrun : unavailability evs [hall_a_0900; hall_a_0945] ud
                 = Some output) by (vm_compute; reflexivity).
  assert (H0 : index keynote_alice evs = Some 0%nat) by reflexivity.
  assert (H1 : index (ev "Panel" "alice" "talk") evs = Some 1%nat)
    by reflexivity.
  assert (G0 : PyDict.get 0%nat output = Some [0%nat]) by reflexivity.
  assert (G1 : PyDict.get 1%nat output = Some [0%nat]) by reflexivity.
  refine (conj Hwf (conj Hrun (conj H0 (conj H1 (conj G0 (conj G1 _)))))).
  exact (unavailability_same_person _ _ _ _ _ _ _ _ _ _
           Hwf Hrun H0 H1 eq_refl G0 G1).
Defined.

End MoreUnavailabilityFacts.


(** ** More on dictionaries and on [unsuitability] *)

Module MoreDictFacts.
Import PyDict PyDictFacts.
Section more_dict_facts.
Context {K V : Type} `{EqDecision K}.
Implicit Types (k : K) (v : V) (d l : list (K * V)).

Lemma keys_assign k v d :
  keys (assign k v d) = if mem k d then keys d else keys d ++ [k].
Proof.
  destruct (mem k d) eqn:Hmem.
  - apply mem_true in Hmem. unfold keys in *.
    induction d as [|[k0 v0] d IH]; [inversion Hmem|].
    cbn [assign]. destruct (decide (k0 = k)) as [->|Hne]; [reflexivity|].
    cbn [fmap list_fmap fst] in *. f_equal. apply IH.
    apply elem_of_cons in Hmem as [?|?]; [congruence | assumption].
  - apply mem_false in Hmem. rewrite assign_fresh by exact Hmem.
    unfold keys. rewrite fmap_app. reflexivity.
Qed.

Lemma wf_assign k v d : wf d -> wf (assign k v d).
Proof.
  unfold wf. rewrite keys_assign. destruct (mem k d) eqn:Hmem; [auto|].
  apply mem_false in Hmem. intros Hnd. apply NoDup_app.
  split; [exact Hnd|]. split; [|apply NoDup_singleton].
  intros x Hx Hk. apply list_elem_of_singleton in Hk. congruence.
Qed.

(** A dictionary built by a comprehension has no key twice. *)
Lemma wf_of_items l : wf (of_items l).
Proof.
  unfold of_items.
  assert (Hgen : forall d, wf d ->
            wf (foldl (fun d kv => assign kv.1 kv.2 d) d l)).
  { induction l as [|[k v] l IH]; intros d Hd; [exact Hd|].
    cbn [foldl]. apply IH, wf_assign, Hd. }
  apply Hgen. constructor.
Qed.

Lemma keys_of_items k l : k ∈ keys (of_items l) <-> k ∈ l.*1.
Proof.
  split.
  - intros Hk. apply get_is_Some in Hk as [v Hv].
    apply get_of_items_elem in Hv. apply list_elem_of_fmap.
    exists (k, v). auto.
  - intros Hk. apply dec_stable. intros Hn. apply Hn.
    destruct (get k (of_items l)) as [v|] eqn:E.
    + apply get_is_Some. eauto.
    + exfalso. unfold of_items in E. rewrite get_foldl_assign in E.
      destruct (last _) as [kv|] eqn:E'; [discriminate|].
      apply last_None in E'.
      apply list_elem_of_fmap in Hk as ([k' v'] & -> & Hin).
      assert (Hf : (k', v') ∈ filter (fun kv : K * V => kv.1 = k') l).
      { apply list_elem_of_filter. auto. }
      cbn [fst] in E'. rewrite E' in Hf. inversion Hf.
Qed.
End more_dict_facts.
End MoreDictFacts.

From Stdlib Require Import Sorted.

Module MoreUnsuitabilityFacts.
Import Denormalise Samples PyDictFacts MoreDictFacts UnsuitabilityFacts.

Lemma filter_imap_ascending {A} (P : nat * A -> Prop)
    `{forall x, Decision (P x)} (l : list A) n :
  let r := (filter P (imap (fun i x => ((n + i)%nat, x)) l)).*1 in
  StronglySorted lt r /\ Forall (fun k => (n <= k < n + length l)%nat) r.
Proof.
  revert n. induction l as [|x l IH]; intros n; cbv zeta.
  - cbn. split; constructor.
  - cbn [imap].
    rewrite (imap_ext _ (fun i x => ((S n + i)%nat, x)))
      by (intros i y _; cbn; f_equal; lia).
    destruct (IH (S n)) as [Hs Hr]. cbv zeta in Hs, Hr.
    assert (Hr' : Forall (fun k => (n <= k < n + length (x :: l))%nat)
                    (filter P (imap (fun i y => ((S n + i)%nat, y)) l)).*1).
    { eapply Forall_impl; [exact Hr|]. cbn. intros; lia. }
    rewrite filter_cons. destruct (decide (P ((n + 0)%nat, x))).
    + cbn [fmap list_fmap fst]. split.
      * constructor; [exact Hs|].
        eapply Forall_impl; [exact Hr|]. cbn. intros; lia.
      * constructor; [cbn; lia | exact Hr'].
    + split; [exact Hs | exact Hr'].
Qed.

Lemma unsuitable_slots_ascending tas event :
  StronglySorted lt (unsuitable_slots tas event) /\
  Forall (fun j => (j < length tas)%nat) (unsuitable_slots tas event).
Proof.
  unfold unsuitable_slots, enumerate.
  rewrite (imap_ext _ (fun i x => ((0 + i)%nat, x))) by reflexivity.
  destruct (filter_imap_ascending
              (fun id : nat * TypedSlot.t =>
                 TypedSlot.event_type id.2 ≠ EventDef.event_type event)
              tas 0) as [Hs Hr].
  split; [exact Hs|]. eapply Forall_impl; [exact Hr|]. cbn. intros; lia.
Qed.

(** X10.  In the map that [unsuitability] returns every list is in
    strictly ascending order, so no slot is listed twice, and holds
    positions of the slot list only. *)
Theorem unsuitability_lists_ascending types_and_slots events_definition :
  exists output,
    unsuitability types_and_slots events_definition = Some output /\
    forall k unsuitable,
      PyDict.get k output = Some unsuitable ->
      StronglySorted lt unsuitable /\ NoDup unsuitable /\
      Forall (fun j => (j < length types_and_slots)%nat) unsuitable.
Proof.
  eexists. split; [apply unsuitability_items|].
  intros k unsuitable Hget.
  apply get_of_items_elem, list_elem_of_fmap in Hget as (e & [= -> ->] & _).
  destruct (unsuitable_slots_ascending types_and_slots e) as [Hs Hr].
  split; [exact Hs|]. split; [|exact Hr].
  clear Hr. induction Hs as [|j l Hs IH Hall]; constructor; [|exact IH].
  intros Hj. rewrite Forall_forall in Hall. specialize (Hall j Hj). lia.
Qed.

(** X11.  The map that [unsuitability] returns has one entry for each
    distinct event definition and no other: its keys are exactly the
    positions that [index] reports for the events, each key once and
    each a position of the event list. *)
Theorem unsuitability_keys_exact types_and_slots events_definition :
  exists output,
    unsuitability types_and_slots events_definition = Some output /\
    PyDict.wf output /\
    forall k,
      k ∈ PyDict.keys output <->
      exists event, event ∈ events_definition /\
                    index event events_definition = Some k /\
                    events_definition !! k = Some event.
Proof.
  eexists. split; [apply unsuitability_items|].
  split; [apply wf_of_items|]. intros k. rewrite keys_of_items. split.
  - intros Hk. apply list_elem_of_fmap in Hk as ([k' v] & -> & Hin).
    apply list_elem_of_fmap in Hin as (e & [= -> ->] & He).
    exists e. split; [exact He|].
    split; [apply index_position, He | apply position_lookup, He].
  - intros (e & He & Hi & _). apply list_elem_of_fmap.
    exists (k, unsuitable_slots types_and_slots e). split; [reflexivity|].
    apply list_elem_of_fmap. exists e. split; [|exact He].
    rewrite (index_position e _ He) in Hi. injection Hi as <-. reflexivity.
Qed.

End MoreUnsuitabilityFacts.


(** ** More on [clashes] *)

Module MoreClashesFacts.
Import Denormalise ClashesPure Samples PyDictFacts MoreDictFacts.
Import ClashesFacts.

(** The call keeps the store well formed. *)
Lemma clashes_wf evs s out count s' :
  store_wf s -> clashes evs s = Some (out, count, s') -> store_wf s'.
Proof.
  intros Hwf Hrun.
  destruct (clashes_run evs s Hwf) as (h & n & _ & Hlen & Hrun').
  rewrite Hrun in Hrun'. injection Hrun' as -> -> ->.
  pose proof (add_missing_wf (EventDef.person <$> evs) s Hwf) as [Hnd Hb].
  split; [exact Hnd|]. cbn [mapping lists]. rewrite Hlen. exact Hb.
Qed.

(** The entry of an event, read in the store that the call leaves. *)
Lemma clashes_event_entry evs s out count s' event :
  store_wf s -> clashes evs s = Some (out, count, s') -> event ∈ evs ->
  exists l people,
    PyDict.get (EventDef.person event) (mapping s') = Some l /\
    lists s' !! l = Some people /\
    EventDef.person event ∈ people /\
    PyDict.get (position event evs) out
    = Some (clash_list evs people event).
Proof.
  intros Hwf Hrun He.
  destruct (clashes_spec evs s Hwf) as (out' & count' & s'' & Hrun' & Hspec).
  rewrite Hrun in Hrun'. injection Hrun' as <- <- <-.
  cbv zeta in Hspec. destruct Hspec as (Hm & Hout & _ & _ & Hin & _).
  set (persons := EventDef.person <$> evs) in *.
  pose proof (add_missing_wf persons s Hwf) as [Hnd _].
  assert (Hk : EventDef.person event ∈ PyDict.keys (mapping s')).
  { rewrite Hm. apply add_missing_covers.
    apply list_elem_of_fmap. exists event. auto. }
  apply get_is_Some in Hk as [l Hl].
  assert (Hpl : (EventDef.person event, l) ∈ mapping (add_missing persons s)).
  { rewrite <- Hm. apply get_Some_elem, Hl. }
  destruct (Hin _ _ Hpl) as (people & Hpeople & Hself).
  exists l, people. split_and!; try assumption.
  rewrite Hout, (clashes_entry _ _ _ event l Hnd He Hpl), Hpeople.
  reflexivity.
Qed.

(** X12.  Whatever the clash definitions say, two events of one person
    that [index] tells apart clash with each other: when it reports the
    indices [i] and [j] for them and [i <> j], the list under [i] holds
    [j].  When no two event definitions are equal, this holds for the
    events at any two positions.  Two equal definitions are not told
    apart: [index] reports one position for both. *)
Theorem clashes_same_person events_definition s :
  store_wf s ->
  exists out count s',
    clashes events_definition s = Some (out, count, s') /\
    (forall event1 event2 i j,
       index event1 events_definition = Some i ->
       index event2 events_definition = Some j ->
       i <> j -> EventDef.person event1 = EventDef.person event2 ->
       exists clash, PyDict.get i out = Some clash /\ j ∈ clash) /\
    (NoDup events_definition ->
     forall event1 event2 i j,
       events_definition !! i = Some event1 ->
       events_definition !! j = Some event2 ->
       i <> j -> EventDef.person event1 = EventDef.person event2 ->
       exists clash, PyDict.get i out = Some clash /\ j ∈ clash).
Proof.
  intros Hwf.
  destruct (clashes_spec events_definition s Hwf)
    as (out & count & s' & Hrun & _).
  exists out, count, s'. split; [exact Hrun|].
  assert (Hgen : forall event1 event2 i j,
    index event1 events_definition = Some i ->
    index event2 events_definition = Some j ->
    i <> j -> EventDef.person event1 = EventDef.person event2 ->
    exists clash, PyDict.get i out = Some clash /\ j ∈ clash).
  { intros e1 e2 i j Hi Hj Hne Hsame.
    assert (He1 : e1 ∈ events_definition).
    { apply list_elem_of_lookup. exists i. apply index_lookup, Hi. }
    assert (He2 : e2 ∈ events_definition).
    { apply list_elem_of_lookup. exists j. apply index_lookup, Hj. }
    destruct (clashes_event_entry _ _ _ _ _ e1 Hwf Hrun He1)
      as (l & people & _ & _ & Hself & Hget).
    rewrite (index_position e1 _ He1) in Hi. injection Hi as Hi.
    rewrite (index_position e2 _ He2) in Hj. injection Hj as Hj.
    rewrite Hi in Hget. eexists. split; [exact Hget|].
    apply elem_of_clash_list. exists e2.
    split_and!; try assumption; [rewrite <- Hsame; exact Hself | congruence]. }
  split; [exact Hgen|].
  intros Hnd e1 e2 i j Hi Hj. apply Hgen; apply index_NoDup; assumption.
Qed.

Lemma clashes_same_person_bob :
  store_wf no_clashes /\
  exists out count s',
    clashes [keynote_bob; lecture_bob] no_clashes = Some (out, count, s') /\
    (forall event1 event2 i j,
       index event1 [keynote_bob; lecture_bob] = Some i ->
       index event2 [keynote_bob; lecture_bob] = Some j ->
       i <> j -> EventDef.person event1 = EventDef.person event2 ->
       exists clash, PyDict.get i out = Some clash /\ j ∈ clash) /\
    (NoDup [keynote_bob; lecture_bob] ->
     forall event1 event2 i j,
       [keynote_bob; lecture_bob] !! i = Some event1 ->
       [keynote_bob; lecture_bob] !! j = Some event2 ->
       i <> j -> EventDef.person event1 = EventDef.person event2 ->
       exists clash, PyDict.get i out = Some clash /\ j ∈ clash).
Proof.
  split; [exact store_wf_no_clashes|].
  exact (clashes_same_person [keynote_bob; lecture_bob] no_clashes
           store_wf_no_clashes).
Defined.

(** The two lectures of bob on the sample, and the keynote of alice
    defined twice: the equal definitions are in no list. *)
Example clashes_of_one_person :
  clashes [keynote_bob; lecture_bob] no_clashes
  = Some ([(0%nat, [1%nat]); (1%nat, [0%nat])], 0%nat,
          Store [("bob"%string, 0%nat)] [["bob"%string]]) /\
  clashes [keynote_alice; keynote_alice] no_clashes
  = Some ([(0%nat, [])], 0%nat,
          Store [("alice"%string, 0%nat)] [["alice"%string]]).
Proof. split; vm_compute; reflexivity. Qed.

Lemma lacking_nil_iff m h :
  lacking m h = [] <->
  Forall (fun kv : string * nat => kv.1 ∈ default [] (h !! kv.2)) m.
Proof.
  unfold lacking. induction m as [|kv m IH].
  - split; [constructor | reflexivity].
  - rewrite filter_cons, Forall_cons.
    destruct (decide (kv.1 ∉ default [] (h !! kv.2))) as [Hn|Hn].
    + split; [discriminate | intros [? _]; contradiction].
    + rewrite IH. split; [intros ?; split; [apply dec_stable, Hn|]|intros [_ ?]];
        assumption.
Qed.

(** X13.  A second call changes nothing: called again with the clash
    definitions as the first call left them, [clashes] returns the same
    map with count 0 and leaves the definitions as they are. *)
Theorem clashes_twice events_definition s out count s' :
  store_wf s ->
  clashes events_definition s = Some (out, count, s') ->
  clashes events_definition s' = Some (out, 0%nat, s').
Proof.
  intros Hwf Hrun.
  pose proof (clashes_wf _ _ _ _ _ Hwf Hrun) as Hwf'.
  destruct (clashes_spec events_definition s Hwf)
    as (out1 & count1 & s1 & Hrun1 & Hspec1).
  rewrite Hrun in Hrun1. injection Hrun1 as <- <- <-.
  cbv zeta in Hspec1. destruct Hspec1 as (Hm & Hout & _ & _ & Hin & _).
  destruct (clashes_spec events_definition s' Hwf')
    as (out2 & count2 & s2 & Hrun2 & Hspec2).
  cbv zeta in Hspec2. destruct Hspec2 as (Hm2 & Hout2 & Hc2 & _ & _ & Hid2).
  set (persons := EventDef.person <$> events_definition) in *.
  assert (Hs' : add_missing persons s' = s').
  { apply add_missing_id; [exact Hwf'|]. intros p Hp.
    rewrite Hm. apply add_missing_covers. exact Hp. }
  rewrite Hs' in Hm2, Hout2, Hid2.
  assert (Hself : Forall (fun kv : string * nat => exists people,
                    lists s' !! kv.2 = Some people /\ kv.1 ∈ people)
                    (mapping s')).
  { apply Forall_forall. intros [p l] Hpl. apply Hin. rewrite <- Hm.
    exact Hpl. }
  specialize (Hid2 Hself).
  assert (s2 = s') as ->.
  { destruct s2, s'. cbn in Hm2, Hid2. congruence. }
  assert (count2 = 0%nat) as ->.
  { rewrite Hc2.
    assert (lacking (mapping s') (lists s') = []) as ->; [|reflexivity].
    apply lacking_nil_iff. eapply Forall_impl; [exact Hself|].
    intros kv (people & -> & Hp). exact Hp. }
  rewrite Hrun2. do 3 f_equal. rewrite Hout2, Hout, Hm. reflexivity.
Qed.

Lemma only_bob_run :
  clashes [keynote_bob; tutorial_carol] only_bob
  = Some ([(0%nat, [1%nat]); (1%nat, [])], 1%nat,
          Store [("bob"%string, 0%nat); ("carol"%string, 1%nat)]
                [["carol"; "bob"]; ["carol"]]%string).
Proof. vm_compute. reflexivity. Qed.

Lemma clashes_twice_only_bob :
  store_wf only_bob /\
  clashes [keynote_bob; tutorial_carol] only_bob
  = Some ([(0%nat, [1%nat]); (1%nat, [])], 1%nat,
          Store [("bob"%string, 0%nat); ("carol"%string, 1%nat)]
                [["carol"; "bob"]; ["carol"]]%string) /\
  clashes [keynote_bob; tutorial_carol]
    (Store [("bob"%string, 0%nat); ("carol"%string, 1%nat)]
           [["carol"; "bob"]; ["carol"]]%string)
  = Some ([(0%nat, [1%nat]); (1%nat, [])], 0%nat,
          Store [("bob"%string, 0%nat); ("carol"%string, 1%nat)]
                [["carol"; "bob"]; ["carol"]]%string).
Proof.
  refine (conj store_wf_only_bob (conj only_bob_run _)).
  exact (clashes_twice _ _ _ _ _ store_wf_only_bob only_bob_run).
Defined.

(** X14.  The call keeps the clash definitions a dictionary of list
    objects, with the old keys in their old order, followed by the new
    ones: each owner of an event that had no key, once. *)
Theorem clashes_keeps_keys events_definition s out count s' :
  store_wf s ->
  clashes events_definition s = Some (out, count, s') ->
  store_wf s' /\
  exists added,
    PyDict.keys (mapping s') = PyDict.keys (mapping s) ++ added /\
    NoDup added /\
    length (lists s') = (length (lists s) + length added)%nat /\
    forall p, p ∈ added <->
      (p ∉ PyDict.keys (mapping s)) /\
      exists event, event ∈ events_definition /\ EventDef.person event = p.
Proof.
  intros Hwf Hrun. split; [exact (clashes_wf _ _ _ _ _ Hwf Hrun)|].
  destruct (clashes_run events_definition s Hwf)
    as (h & n & _ & Hlen & Hrun').
  rewrite Hrun in Hrun'. injection Hrun' as -> -> ->.
  set (persons := EventDef.person <$> events_definition) in *.
  exists (missing persons (PyDict.keys (mapping s))). cbn [mapping lists].
  split_and!.
  - apply add_missing_keys.
  - apply NoDup_missing.
  - rewrite Hlen, add_missing_lists, length_app, length_fmap. reflexivity.
  - intros p. rewrite elem_of_missing. unfold persons.
    rewrite list_elem_of_fmap. split.
    + intros [(event & -> & He) Hk]. eauto.
    + intros [Hk (event & He & <-)]. eauto.
Qed.

Lemma clashes_keeps_keys_only_bob :
  store_wf only_bob /\
  clashes [keynote_bob; tutorial_carol] only_bob
  = Some ([(0%nat, [1%nat]); (1%nat, [])], 1%nat,
          Store [("bob"%string, 0%nat); ("carol"%string, 1%nat)]
                [["carol"; "bob"]; ["carol"]]%string) /\
  store_wf (Store [("bob"%string, 0%nat); ("carol"%string, 1%nat)]
                  [["carol"; "bob"]; ["carol"]]%string).
Proof.
  refine (conj store_wf_only_bob (conj only_bob_run _)).
  exact (proj1 (clashes_keeps_keys _ _ _ _ _ store_wf_only_bob
                  only_bob_run)).
Defined.

(** An entry of the returned map is the entry of an event. *)
Lemma clashes_entry_event evs s out count s' k clash :
  store_wf s -> clashes evs s = Some (out, count, s') ->
  PyDict.get k out = Some clash ->
  exists event l people,
    event ∈ evs /\ position event evs = k /\
    PyDict.get (EventDef.person event) (mapping s') = Some l /\
    lists s' !! l = Some people /\
    clash = clash_list evs people event.
Proof.
  intros Hwf Hrun Hget.
  destruct (clashes_indices _ _ _ _ _ _ _ Hwf Hrun Hget)
    as [(event & He & Hi) _].
  destruct (clashes_event_entry _ _ _ _ _ event Hwf Hrun He)
    as (l & people & Hl & Hp & _ & Hget').
  rewrite (index_position event _ He) in Hi. injection Hi as Hi.
  rewrite Hi in Hget'. exists event, l, people.
  split_and!; try assumption. congruence.
Qed.

(** X15.  The clash map is as symmetric as the relation: when the clash
    definitions, as the call leaves them, are symmetric, an event is in
    the clash list of another exactly when the other is in its own. *)
Theorem clashes_symmetric events_definition s out count s' i j clash_i
    clash_j :
  store_wf s ->
  clashes events_definition s = Some (out, count, s') ->
  Relations.symmetric s' ->
  PyDict.get i out = Some clash_i -> PyDict.get j out = Some clash_j ->
  (j ∈ clash_i <-> i ∈ clash_j).
Proof.
  intros Hwf Hrun Hsym Hi Hj.
  destruct (clashes_entry_event _ _ _ _ _ _ _ Hwf Hrun Hi)
    as (ei & li & Li & Hei & Hpi & Hgi & HLi & ->).
  destruct (clashes_entry_event _ _ _ _ _ _ _ Hwf Hrun Hj)
    as (ej & lj & Lj & Hej & Hpj & Hgj & HLj & ->).
  pose proof (Hsym _ _ _ _ _ _ Hgi HLi Hgj HLj) as Hs.
  rewrite !elem_of_clash_list. split.
  - intros (t & Ht & Hp & Hpos & Hne). exists ei.
    assert (t = ej) as ->.
    { pose proof (position_lookup t _ Ht) as H1.
      pose proof (position_lookup ej _ Hej) as H2.
      rewrite Hpos, <- Hpj in H1. congruence. }
    split_and!; try assumption; [apply Hs, Hp | congruence].
  - intros (t & Ht & Hp & Hpos & Hne). exists ej.
    assert (t = ei) as ->.
    { pose proof (position_lookup t _ Ht) as H1.
      pose proof (position_lookup ei _ Hei) as H2.
      rewrite Hpos, <- Hpi in H1. congruence. }
    split_and!; try assumption; [apply Hs, Hp | congruence].
Qed.

Lemma store_wf_bob_and_carol : store_wf bob_and_carol.
Proof.
  split; [|repeat constructor].
  repeat constructor.
  - intros H. apply list_elem_of_singleton in H. discriminate.
  - intros H. inversion H.
Qed.

Lemma bob_and_carol_run :
  clashes [keynote_bob; tutorial_carol] bob_and_carol
  = Some ([(0%nat, [1%nat]); (1%nat, [0%nat])], 2%nat,
          Store [("bob"%string, 0%nat); ("carol"%string, 1%nat)]
                [["carol"; "bob"]; ["bob"; "carol"]]%string).
Proof. vm_compute. reflexivity. Qed.

Lemma bob_and_carol_symmetric :
  Relations.symmetric
    (Store [("bob"%string, 0%nat); ("carol"%string, 1%nat)]
           [["carol"; "bob"]; ["bob"; "carol"]]%string).
Proof.
  intros p q lp lq Lp Lq Hp HLp Hq HLq. cbn [mapping lists] in *.
  cbn [PyDict.get] in Hp, Hq.
  repeat case_decide; simplify_eq/=; split; intros _; repeat constructor.
Qed.

Lemma clashes_symmetric_bob_and_carol :
  store_wf bob_and_carol /\
  clashes [keynote_bob; tutorial_carol] bob_and_carol
  = Some ([(0%nat, [1%nat]); (1%nat, [0%nat])], 2%nat,
          Store [("bob"%string, 0%nat); ("carol"%string, 1%nat)]
                [["carol"; "bob"]; ["bob"; "carol"]]%string) /\
  Relations.symmetric
    (Store [("bob"%string, 0%nat); ("carol"%string, 1%nat)]
           [["carol"; "bob"]; ["bob"; "carol"]]%string) /\
  (1%nat ∈ [1%nat] <-> 0%nat ∈ [0%nat]).
Proof.
  refine (conj store_wf_bob_and_carol
            (conj bob_and_carol_run (conj bob_and_carol_symmetric _))).
  exact (clashes_symmetric _ _ _ _ _ 0%nat 1%nat [1%nat] [0%nat]
           store_wf_bob_and_carol bob_and_carol_run
           bob_and_carol_symmetric eq_refl eq_refl).
Defined.

(** X16.  The map that [clashes] returns has one entry for every event
    that [index] finds and no other, each key once; its lists hold
    positions of the event list, and never the key they stand under. *)
Theorem clashes_result_shape events_definition s out count s' :
  store_wf s ->
  clashes events_definition s = Some (out, count, s') ->
  PyDict.wf out /\
  (forall k, k ∈ PyDict.keys out <->
     exists event, event ∈ events_definition /\
                   index event events_definition = Some k) /\
  (forall k clash, PyDict.get k out = Some clash ->
     Forall (fun j => (j < length events_definition)%nat /\ j <> k) clash).
Proof.
  intros Hwf Hrun. split_and!.
  - destruct (clashes_spec events_definition s Hwf)
      as (out' & count' & s'' & Hrun' & Hspec).
    rewrite Hrun in Hrun'. injection Hrun' as <- <- <-.
    cbv zeta in Hspec. destruct Hspec as (_ & -> & _). apply wf_of_items.
  - intros k. split.
    + intros Hk. apply get_is_Some in Hk as [clash Hget].
      destruct (clashes_indices _ _ _ _ _ _ _ Hwf Hrun Hget) as [H _].
      exact H.
    + intros (event & He & Hi). apply get_is_Some.
      rewrite (index_position event _ He) in Hi. injection Hi as <-.
      exact (clashes_has_entry _ _ _ _ _ _ Hwf Hrun He).
  - intros k clash Hget.
    destruct (clashes_entry_event _ _ _ _ _ _ _ Hwf Hrun Hget)
      as (event & l & people & He & Hpos & _ & _ & ->).
    apply Forall_forall. intros j Hj.
    apply elem_of_clash_list in Hj as (t & Ht & _ & <- & Hne).
    split; [|congruence].
    apply (lookup_lt_Some _ _ t), position_lookup, Ht.
Qed.

Lemma clashes_result_shape_only_bob :
  store_wf only_bob /\
  clashes [keynote_bob; tutorial_carol] only_bob
  = Some ([(0%nat, [1%nat]); (1%nat, [])], 1%nat,
          Store [("bob"%string, 0%nat); ("carol"%string, 1%nat)]
                [["carol"; "bob"]; ["carol"]]%string) /\
  PyDict.wf [(0%nat, [1%nat]); (1%nat, @nil nat)].
Proof.
  refine (conj store_wf_only_bob (conj only_bob_run _)).
  exact (proj1 (clashes_result_shape _ _ _ _ _ store_wf_only_bob
                  only_bob_run)).
Defined.

(** X17.  The count that [clashes] returns is at most the number of
    entries that the clash definitions had, and it is 0 exactly when
    every one of those entries named its own person already. *)
Theorem clashes_count_bounds events_definition s out count s' :
  store_wf s ->
  clashes events_definition s = Some (out, count, s') ->
  (count <= length (mapping s))%nat /\
  (count = 0%nat <->
   Forall (fun kv => exists people,
             lists s !! kv.2 = Some people /\ kv.1 ∈ people) (mapping s)).
Proof.
  intros Hwf Hrun.
  destruct (clashes_spec events_definition s Hwf)
    as (out' & count' & s'' & Hrun' & Hspec).
  rewrite Hrun in Hrun'. injection Hrun' as <- <- <-.
  cbv zeta in Hspec. destruct Hspec as (_ & _ & -> & _).
  split; [apply length_filter|].
  rewrite length_zero_iff_nil, lacking_nil_iff.
  destruct Hwf as [_ Hb]. rewrite !Forall_forall. split.
  - intros H [p l] Hpl. rewrite Forall_forall in Hb.
    specialize (Hb _ Hpl). specialize (H _ Hpl). cbn [fst snd] in *.
    destruct (lookup_lt_is_Some_2 _ _ Hb) as [people Hpeople].
    rewrite Hpeople in H. eauto.
  - intros H kv Hkv. destruct (H kv Hkv) as (people & -> & Hp). exact Hp.
Qed.

Lemma clashes_count_bounds_only_bob :
  store_wf only_bob /\
  clashes [keynote_bob; tutorial_carol] only_bob
  = Some ([(0%nat, [1%nat]); (1%nat, [])], 1%nat,
          Store [("bob"%string, 0%nat); ("carol"%string, 1%nat)]
                [["carol"; "bob"]; ["carol"]]%string) /\
  (1 <= length (mapping only_bob))%nat.
Proof.
  refine (conj store_wf_only_bob (conj only_bob_run _)).
  exact (proj1 (clashes_count_bounds _ _ _ _ _ store_wf_only_bob
                  only_bob_run)).
Defined.

End MoreClashesFacts.
